(** * Project Lockdown: the vehicle-routing optimiser ([vrp_optimiser.py])

    A shallow embedding of the warehouse-assignment, fleet-allocation,
    load-partitioning and route-aggregation code of [vrp_optimiser.py],
    followed by the properties the specification states about it and by
    further properties of the code.

    Conventions of the embedding:
    - a Python [str] is a [string], a Python [int] is a [Z];
    - a Python [float] is an IEEE-754 binary64 value, [spec_float] with
      precision 53 and maximal exponent 1024 (module [Float]);
    - a Python [dict] is an insertion-ordered association list with unique
      keys (module [Dict]);
    - a raised exception is the [Raise] case of [result];
    - the two HTTP services are functions from the request URL to the
      decoded response; records passed to [logger] are collected in order
      (the writer part of [Py]). *)

From Stdlib Require Import String Ascii ZArith Bool Lia Permutation List.
From Stdlib Require Import SpecFloat.
From ExtLib Require Import Structures.Monad.
Import ListNotations.
Import MonadNotation.

Local Open Scope string_scope.
Local Open Scope list_scope.
Local Open Scope monad_scope.
Local Open Scope Z_scope.

(** ** Exceptions and logging *)

(** The built-in exceptions the modelled code can raise. *)
Inductive exn : Type :=
| IndexError
| KeyError
| ValueError
| ZeroDivisionError
| OverflowError.

Inductive result (A : Type) : Type :=
| Ok (a : A)
| Raise (e : exn).

Arguments Ok {A} a.
Arguments Raise {A} e.

#[export] Instance Monad_result : Monad result :=
  {| ret := fun A (a : A) => Ok a;
     bind := fun A B (m : result A) (f : A -> result B) =>
               match m with
               | Ok a => f a
               | Raise e => Raise e
               end |}.

(** Levels of the [logging] module. *)
Inductive level : Type := DEBUG | INFO | WARNING | ERROR | CRITICAL.

Record log_record : Type := { record_level : level; record_msg : string }.

(** A computation that may raise and that emits log records. *)
Definition Py (A : Type) : Type := (result A * list log_record)%type.

#[export] Instance Monad_Py : Monad Py :=
  {| ret := fun A (a : A) => (Ok a, []);
     bind := fun A B (m : Py A) (f : A -> Py B) =>
               match fst m with
               | Ok a => (fst (f a), snd m ++ snd (f a))
               | Raise e => (Raise e, snd m)
               end |}.

Definition value {A} (m : Py A) : result A := fst m.
Definition logged {A} (m : Py A) : list log_record := snd m.

Definition lift {A} (r : result A) : Py A := (r, []).

(** [logger.error(msg)] *)
Definition logger_error (msg : string) : Py unit :=
  (Ok tt, [{| record_level := ERROR; record_msg := msg |}]).

(** ** Python dictionaries *)

Class Hashable (K : Type) : Type :=
  { key_eqb : K -> K -> bool;
    key_eqb_spec : forall x y, reflect (x = y) (key_eqb x y) }.

#[export] Instance Hashable_string : Hashable string :=
  {| key_eqb := String.eqb; key_eqb_spec := String.eqb_spec |}.

#[export] Instance Hashable_Z : Hashable Z :=
  {| key_eqb := Z.eqb; key_eqb_spec := Z.eqb_spec |}.

Module Dict.
Section Dict.
Context {K V : Type} `{Hashable K}.

(** Items in insertion order. *)
Definition t : Type := list (K * V).

Definition empty : t := [].

Definition items (d : t) : list (K * V) := d.
Definition keys (d : t) : list K := map fst d.
Definition values (d : t) : list V := map snd d.

(** [d.get(k)] *)
Fixpoint get (d : t) (k : K) : option V :=
  match d with
  | [] => None
  | (k', v) :: rest => if key_eqb k' k then Some v else get rest k
  end.

(** [k in d] *)
Definition contains (d : t) (k : K) : bool :=
  match get d k with
  | Some _ => true
  | None => false
  end.

(** [d[k]] *)
Definition getitem (d : t) (k : K) : result V :=
  match get d k with
  | Some v => Ok v
  | None => Raise KeyError
  end.

(** [d[k] = v]: an existing key keeps its position, a new key goes last. *)
Fixpoint setitem (d : t) (k : K) (v : V) : t :=
  match d with
  | [] => [(k, v)]
  | (k', v') :: rest =>
      if key_eqb k' k then (k', v) :: rest else (k', v') :: setitem rest k v
  end.

(** [{k: f(k) for k in ks}] *)
Definition comprehension (f : K -> V) (ks : list K) : t :=
  fold_left (fun d k => setitem d k (f k)) ks empty.

(** [d.get(k, default)] *)
Definition get_default (d : t) (k : K) (default : V) : V :=
  match get d k with
  | Some v => v
  | None => default
  end.
End Dict.
Arguments t : clear implicits.
Arguments t K V : clear implicits.
End Dict.

Abbreviation dict := Dict.t.

(** ** Python floats *)

Module Float.
Definition prec : Z := 53.
Definition emax : Z := 1024.

Definition float : Type := spec_float.

(** [0.0] *)
Definition zero : float := S754_zero false.

(** [float(z)]: rounds to nearest, ties to even; too large an integer
    raises [OverflowError]. *)
Definition of_int (z : Z) : result float :=
  match binary_normalize prec emax z 0 false with
  | S754_infinity _ => Raise OverflowError
  | f => Ok f
  end.

(** [a / b] on two integers: the correctly rounded quotient. *)
Definition int_true_div (a b : Z) : result float :=
  if b =? 0 then Raise ZeroDivisionError
  else
    let negate := xorb (a <? 0) (b <? 0) in
    if a =? 0 then Ok (S754_zero negate)
    else
      let '(mz, ez, lz) := SFdiv_core_binary prec emax (Z.abs a) 0 (Z.abs b) 0 in
      match binary_round_aux prec emax negate mz ez lz with
      | S754_infinity _ => Raise OverflowError
      | f => Ok f
      end.

(** [x + y] and [x * y] on two floats never raise. *)
Definition add (x y : float) : float := SFadd prec emax x y.
Definition mul (x y : float) : float := SFmul prec emax x y.

(** [x * z] with a float on the left and an integer on the right. *)
Definition mul_int (x : float) (z : Z) : result float :=
  y <- of_int z ;;
  ret (mul x y).

(** The integer nearest to [m * 2^e], ties to even ([0 < m]). *)
Definition nearest_even (m e : Z) : Z :=
  if 0 <=? e then m * 2 ^ e
  else
    let d := 2 ^ (- e) in
    let q := m / d in
    match (2 * (m mod d) ?= d) with
    | Lt => q
    | Gt => q + 1
    | Eq => if Z.even q then q else q + 1
    end.

(** [round(x)] with one argument. *)
Definition round (x : float) : result Z :=
  match x with
  | S754_zero _ => Ok 0
  | S754_infinity _ => Raise OverflowError
  | S754_nan => Raise ValueError
  | S754_finite s m e => Ok (cond_Zopp s (nearest_even (Zpos m) e))
  end.

(** [sum] of floats as the code accumulates it: from [0], left to right. *)
Definition sum (xs : list float) : float := fold_left add xs zero.
End Float.

Abbreviation float := Float.float.

(** ** Built-ins on lists and integers *)

(** [l[0]] *)
Definition first_item {A} (l : list A) : result A :=
  match l with
  | [] => Raise IndexError
  | x :: _ => Ok x
  end.

(** [l[1:-1]] *)
Definition inner_slice {A} (l : list A) : list A := removelast (tl l).

(** [len(l)] *)
Definition len {A} (l : list A) : Z := Z.of_nat (List.length l).

(** [sum(l)] on integers *)
Definition sum_int (l : list Z) : Z := fold_left Z.add l 0.

(** [enumerate(l)], counting from [start] *)
Fixpoint enumerate_from {A} (start : Z) (l : list A) : list (Z * A) :=
  match l with
  | [] => []
  | x :: rest => (start, x) :: enumerate_from (start + 1) rest
  end.

Definition enumerate {A} (l : list A) : list (Z * A) := enumerate_from 0 l.

(** [a % b]: the result has the sign of [b], as [Z.modulo] has. *)
Definition py_mod (a b : Z) : result Z :=
  if b =? 0 then Raise ZeroDivisionError else Ok (a mod b).

(** [bool(s)] of a string: false exactly for the empty string. *)
Definition str_truthy (s : string) : bool :=
  match s with
  | EmptyString => false
  | String _ _ => true
  end.

(** [max(l, key=key)]: the first item whose key is maximal; [ValueError] on
    an empty list. *)
Fixpoint max_from {A} (key : A -> result Z) (best : A) (best_key : Z)
    (l : list A) : result A :=
  match l with
  | [] => ret best
  | x :: rest =>
      k <- key x ;;
      if best_key <? k then max_from key x k rest
      else max_from key best best_key rest
  end.

Definition max_by {A} (key : A -> result Z) (l : list A) : result A :=
  match l with
  | [] => Raise ValueError
  | x :: rest => k <- key x ;; max_from key x k rest
  end.

(** ** class RouteOptimiser *)

(** What [get_distance] can see of the answer to its request.  (An answer
    whose decoding raises another exception is not modelled.) *)
Inductive distance_response : Type :=
| DistanceValue (meters : Z)
    (* status "OK", a row, element status "OK" with a "distance" *)
| DistanceMissing
    (* any other decoded answer *)
| DistanceRequestException (e : string).
    (* [requests] raised a [RequestException] *)

(** One entry of [route_info]. *)
Record leg : Type := { end_address : string; distance : Z }.

(** What [get_optimised_route] can see of the answer to its request. *)
Inductive directions_response : Type :=
| DirectionsLegs (legs : list leg)
    (* status "OK": the legs of the first route *)
| DirectionsNotOk
    (* any other status *)
| DirectionsRequestException (e : string).

(** The object with the network it talks to: [requests.get] followed by the
    decoding of the answer is a function of the URL. *)
Record RouteOptimiser : Type :=
  { api_key : string;
    distance_matrix_service : string -> distance_response;
    directions_service : string -> directions_response }.

(** One vehicle's entry of [truck_routes]. *)
Record truck_route : Type := { route : list string; total_distance : float }.

(** [min_distance]: [float('inf')] or a distance. *)
Inductive bound : Type :=
| Infinity
| Finite (meters : Z).

(** [distance < min_distance] *)
Definition below (distance : Z) (min_distance : bound) : bool :=
  match min_distance with
  | Infinity => true
  | Finite m => distance <? m
  end.

(** [d[k].append(x)] *)
Definition append_at {K V} `{Hashable K} (d : dict K (list V)) (k : K) (x : V)
  : result (dict K (list V)) :=
  l <- Dict.getitem d k ;;
  ret (Dict.setitem d k (l ++ [x])).

(** The URL of a Distance Matrix request. *)
Definition distance_url (key origin destination : string) : string :=
  ("https://maps.googleapis.com/maps/api/distancematrix/json"
     ++ "?origins=" ++ origin ++ "&destinations=" ++ destination
     ++ "&mode=driving&key=" ++ key)%string.

(** The URL of a Directions request. *)
Definition directions_url (key origin destination waypoints_str : string)
  : string :=
  ("https://maps.googleapis.com/maps/api/directions/json?"
     ++ "origin=" ++ origin ++ "&destination=" ++ destination
     ++ "&waypoints=optimize:true|" ++ waypoints_str
     ++ "&key=" ++ key)%string.

Section RouteOptimiser.
Variable self : RouteOptimiser.

Definition get_distance (origin destination : string) : Py (option Z) :=
  match distance_matrix_service self
          (distance_url (api_key self) origin destination) with
  | DistanceValue meters => ret (Some meters)
  | DistanceMissing => ret None
  | DistanceRequestException e =>
      logger_error ("Error retrieving distance from " ++ origin ++ " to "
                      ++ destination ++ ": " ++ e)%string ;;
      ret None
  end.

Definition get_optimised_route (waypoints : list string) : Py (list leg) :=
  match waypoints with
  | [] => ret []
  | origin :: _ =>
      let destination := last waypoints origin in
      let stops := inner_slice waypoints in
      let waypoints_str := String.concat "|" stops in
      match directions_service self
              (directions_url (api_key self) origin destination
                 waypoints_str) with
      | DirectionsLegs legs => ret legs
      | DirectionsNotOk => ret []
      | DirectionsRequestException e =>
          logger_error ("Error retrieving optimised route: " ++ e)%string ;;
          ret []
      end
  end.

(** The inner loop of [calculate_warehouse_distances]. *)
Fixpoint distances_from (warehouse : string) (postcodes : list string)
    (warehouse_distances : dict string (dict string Z))
  : Py (dict string (dict string Z)) :=
  match postcodes with
  | [] => ret warehouse_distances
  | postcode :: rest =>
      distance <- get_distance warehouse postcode ;;
      match distance with
      | Some d =>
          row <- lift (Dict.getitem warehouse_distances warehouse) ;;
          distances_from warehouse rest
            (Dict.setitem warehouse_distances warehouse
               (Dict.setitem row postcode d))
      | None => distances_from warehouse rest warehouse_distances
      end
  end.

(** The outer loop of [calculate_warehouse_distances]. *)
Fixpoint distances_loop (warehouses postcodes : list string)
    (warehouse_distances : dict string (dict string Z))
  : Py (dict string (dict string Z)) :=
  match warehouses with
  | [] => ret warehouse_distances
  | warehouse :: rest =>
      wd <- distances_from warehouse postcodes warehouse_distances ;;
      distances_loop rest postcodes wd
  end.

Definition calculate_warehouse_distances (warehouses postcodes : list string)
  : Py (dict string (dict string Z)) :=
  distances_loop warehouses postcodes
    (Dict.comprehension (fun _ => Dict.empty) warehouses).

(** The loop over [warehouses] for one postcode: the final
    [(min_distance, nearest_warehouse)]. *)
Fixpoint nearest_loop (warehouse_distances : dict string (dict string Z))
    (postcode : string) (warehouses : list string)
    (min_distance : bound) (nearest_warehouse : option string)
  : result (bound * option string) :=
  match warehouses with
  | [] => ret (min_distance, nearest_warehouse)
  | warehouse :: rest =>
      row <- Dict.getitem warehouse_distances warehouse ;;
      if Dict.contains row postcode then
        distance <- Dict.getitem row postcode ;;
        if below distance min_distance
        then nearest_loop warehouse_distances postcode rest
               (Finite distance) (Some warehouse)
        else nearest_loop warehouse_distances postcode rest
               min_distance nearest_warehouse
      else nearest_loop warehouse_distances postcode rest
             min_distance nearest_warehouse
  end.

(** The warehouse one postcode is appended to: [nearest_warehouse] when it
    is truthy, [warehouses[0]] when it is [None] or the empty string. *)
Definition chosen_warehouse (warehouses : list string)
    (nearest_warehouse : option string) : result string :=
  match nearest_warehouse with
  | Some w => if str_truthy w then ret w else first_item warehouses
  | None => first_item warehouses
  end.

(** The loop over [postcodes] of [assign_postcodes_to_warehouses]. *)
Fixpoint assign_loop (warehouse_distances : dict string (dict string Z))
    (warehouses postcodes : list string)
    (warehouse_assignments : dict string (list string))
  : result (dict string (list string)) :=
  match postcodes with
  | [] => ret warehouse_assignments
  | postcode :: rest =>
      found <- nearest_loop warehouse_distances postcode warehouses
                 Infinity None ;;
      w <- chosen_warehouse warehouses (snd found) ;;
      wa <- append_at warehouse_assignments w postcode ;;
      assign_loop warehouse_distances warehouses rest wa
  end.

Definition assign_postcodes_to_warehouses (warehouses postcodes : list string)
  : Py (dict string (list string)) :=
  warehouse_distances <- calculate_warehouse_distances warehouses postcodes ;;
  lift (assign_loop warehouse_distances warehouses postcodes
          (Dict.comprehension (fun _ => []) warehouses)).

(** The loop of [optimise_routes_for_trucks] over [trucks.items()]. *)
Fixpoint routes_loop (items : list (Z * list string)) (warehouse : string)
    (truck_routes : dict Z truck_route) : Py (dict Z truck_route) :=
  match items with
  | [] => ret truck_routes
  | (truck_id, stops) :: rest =>
      match stops with
      | [] => routes_loop rest warehouse truck_routes
      | _ :: _ =>
          route_info <-
            get_optimised_route ([warehouse] ++ stops ++ [warehouse]) ;;
          let total :=
            match route_info with
            | [] => 0
            | _ :: _ => sum_int (map distance route_info)
            end in
          km <- lift (Float.int_true_div total 1000) ;;
          routes_loop rest warehouse
            (Dict.setitem truck_routes truck_id
               {| route := map end_address route_info;
                  total_distance := km |})
      end
  end.

Definition optimise_routes_for_trucks (trucks : dict Z (list string))
    (warehouse : string) : Py (dict Z truck_route) :=
  routes_loop (Dict.items trucks) warehouse Dict.empty.
End RouteOptimiser.

(** ** divide_postcodes_among_trucks *)

(** [trucks[k].append(pc)] on a [defaultdict(list)]: a missing key is
    inserted, last, with an empty list first. *)
Definition defaultdict_append {K V} `{Hashable K} (d : dict K (list V))
    (k : K) (x : V) : dict K (list V) :=
  Dict.setitem d k (Dict.get_default d k [] ++ [x]).

Fixpoint divide_loop (indexed : list (Z * string)) (num_trucks : Z)
    (trucks : dict Z (list string)) : result (dict Z (list string)) :=
  match indexed with
  | [] => ret trucks
  | (i, pc) :: rest =>
      k <- py_mod i num_trucks ;;
      divide_loop rest num_trucks (defaultdict_append trucks k pc)
  end.

Definition divide_postcodes_among_trucks (postcodes : list string)
    (num_trucks : Z) : result (dict Z (list string)) :=
  divide_loop (enumerate postcodes) num_trucks Dict.empty.

(** ** main *)

(** What [main] prints for one vehicle, one warehouse, and the whole run. *)
Record truck_report : Type :=
  { actual_truck_id : Z;
    truck_distance : float;
    truck_stops : list string }.

Record warehouse_report : Type :=
  { reported_warehouse : string;
    warehouse_label : string;
    assigned_trucks : Z;
    truck_reports : list truck_report;
    warehouse_total_distance : float }.

Record report : Type :=
  { warehouse_reports : list warehouse_report;
    grand_total_distance : float }.

(** [max(1, round(proportion * total_trucks))] with
    [proportion = assigned_postcodes / total_postcodes]. *)
Definition raw_trucks (assigned_postcodes total_postcodes total_trucks : Z)
  : result Z :=
  proportion <- Float.int_true_div assigned_postcodes total_postcodes ;;
  scaled <- Float.mul_int proportion total_trucks ;;
  rounded <- Float.round scaled ;;
  ret (Z.max 1 rounded).

(** Step 2, the loop over [warehouses]. *)
Fixpoint allocation_loop (warehouse_assignments : dict string (list string))
    (total_postcodes total_trucks : Z) (warehouses : list string)
    (trucks_per_warehouse : dict string Z) : result (dict string Z) :=
  match warehouses with
  | [] => ret trucks_per_warehouse
  | warehouse :: rest =>
      assigned <- Dict.getitem warehouse_assignments warehouse ;;
      n <- raw_trucks (len assigned) total_postcodes total_trucks ;;
      allocation_loop warehouse_assignments total_postcodes total_trucks rest
        (Dict.setitem trucks_per_warehouse warehouse n)
  end.

(** [max(warehouses, key=lambda w: len(warehouse_assignments[w]))] *)
Definition larger_warehouse (warehouse_assignments : dict string (list string))
    (warehouses : list string) : result string :=
  max_by (fun w => assigned <- Dict.getitem warehouse_assignments w ;;
                   ret (len assigned))
         warehouses.

(** Step 2, the adjustment after the loop. *)
Definition adjust_trucks (warehouse_assignments : dict string (list string))
    (total_trucks : Z) (warehouses : list string)
    (trucks_per_warehouse : dict string Z) : result (dict string Z) :=
  let trucks_diff := total_trucks - sum_int (Dict.values trucks_per_warehouse) in
  if trucks_diff =? 0 then ret trucks_per_warehouse
  else
    larger <- larger_warehouse warehouse_assignments warehouses ;;
    current <- Dict.getitem trucks_per_warehouse larger ;;
    ret (Dict.setitem trucks_per_warehouse larger (current + trucks_diff)).

(** Step 2 as a whole. *)
Definition allocate_trucks (warehouse_assignments : dict string (list string))
    (total_postcodes total_trucks : Z) (warehouses : list string)
  : result (dict string Z) :=
  raw <- allocation_loop warehouse_assignments total_postcodes total_trucks
           warehouses Dict.empty ;;
  adjust_trucks warehouse_assignments total_trucks warehouses raw.

(** Step 3, the loop over [truck_routes.items()]: the printed vehicles with
    the final [warehouse_total_distance], [grand_total_distance] and
    [global_truck_id].  Both totals start as the integer [0], which a first
    addition turns into [0.0 + distance]. *)
Fixpoint trucks_loop (items : list (Z * truck_route))
    (warehouse_total grand_total : float) (global_truck_id : Z)
  : list truck_report * float * float * Z :=
  match items with
  | [] => ([], warehouse_total, grand_total, global_truck_id)
  | (_, data) :: rest =>
      let actual := global_truck_id + 1 in
      let km := total_distance data in
      let '(printed, wt, gt, gid) :=
        trucks_loop rest (Float.add warehouse_total km)
          (Float.add grand_total km) (global_truck_id + 1) in
      ({| actual_truck_id := actual;
          truck_distance := km;
          truck_stops := route data |} :: printed, wt, gt, gid)
  end.

Section Main.
Variable optimiser : RouteOptimiser.
Variable warehouse_alias : dict string string.
Variable warehouse_assignments : dict string (list string).
Variable trucks_per_warehouse : dict string Z.

(** Step 3, the loop over [warehouses]. *)
Fixpoint warehouses_loop (warehouses : list string) (grand_total : float)
    (global_truck_id : Z) : Py (list warehouse_report * float) :=
  match warehouses with
  | [] => ret ([], grand_total)
  | warehouse :: rest =>
      let label := Dict.get_default warehouse_alias warehouse warehouse in
      assigned_postcodes <-
        lift (Dict.getitem warehouse_assignments warehouse) ;;
      num_trucks <- lift (Dict.getitem trucks_per_warehouse warehouse) ;;
      match assigned_postcodes with
      | [] => warehouses_loop rest grand_total global_truck_id
      | _ :: _ =>
          trucks <-
            lift (divide_postcodes_among_trucks assigned_postcodes num_trucks) ;;
          truck_routes <-
            optimise_routes_for_trucks optimiser trucks warehouse ;;
          let '(printed, wt, gt, gid) :=
            trucks_loop (Dict.items truck_routes) Float.zero grand_total
              global_truck_id in
          more <- warehouses_loop rest gt gid ;;
          ret ({| reported_warehouse := warehouse;
                  warehouse_label := label;
                  assigned_trucks := num_trucks;
                  truck_reports := printed;
                  warehouse_total_distance := wt |} :: fst more, snd more)
      end
  end.
End Main.

(** The body of [main], with its literals as arguments. *)
Definition main_with (optimiser : RouteOptimiser)
    (warehouses : list string) (warehouse_alias : dict string string)
    (postcodes : list string) (total_trucks : Z) : Py report :=
  warehouse_assignments <-
    assign_postcodes_to_warehouses optimiser warehouses postcodes ;;
  let total_postcodes := len postcodes in
  trucks_per_warehouse <-
    lift (allocate_trucks warehouse_assignments total_postcodes total_trucks
            warehouses) ;;
  done <- warehouses_loop optimiser warehouse_alias warehouse_assignments
            trucks_per_warehouse warehouses Float.zero 0 ;;
  ret {| warehouse_reports := fst done; grand_total_distance := snd done |}.

Definition main (optimiser : RouteOptimiser) : Py report :=
  main_with optimiser
    ["LA1 1UJ"; "LA1 1HH"]
    [("LA1 1HH", "Sainsbury"); ("LA1 1UJ", "Aldi")]
    ["LA1 5NS"; "LA1 5NT"; "LA1 5NU"; "LA1 5NX"; "LA1 5NY"; "LA1 5NZ";
     "LA1 4JA"; "LA1 4JB"; "LA1 4JD"; "LA1 4JE"; "LA1 4JF"; "LA1 4JG";
     "LA1 3HG"; "LA1 3HJ"; "LA1 3HL"; "LA1 3HP"; "LA1 3HQ"; "LA1 3HR";
     "LA1 2QR"; "LA1 2QS"; "LA1 2QT"; "LA1 2QU"; "LA1 2QW"; "LA1 2QX";
     "LA1 1PN"; "LA1 1PP"; "LA1 1PQ"; "LA1 1PR"; "LA1 1PS"; "LA1 1PT"]
    30.

(** ** Auxiliary notions used to state the properties *)

(** The postcodes of an enumerated list whose index is [j] modulo
    [num_trucks], in order. *)
Definition round_robin_load (num_trucks j : Z) (indexed : list (Z * string))
  : list string :=
  map snd (filter (fun ip => fst ip mod num_trucks =? j) indexed).

(** The load of vehicle [j]: empty when [j] is not a key. *)
Definition load_of (trucks : dict Z (list string)) (j : Z) : list string :=
  Dict.get_default trucks j [].

(** Warehouse [w] has an entry in the assignment, and the raw number of
    trucks for its share is [n]. *)
Definition share_computed (warehouse_assignments : dict string (list string))
    (total_postcodes total_trucks : Z) (w : string) (n : Z) : Prop :=
  exists assigned,
    Dict.get warehouse_assignments w = Some assigned /\
    raw_trucks (len assigned) total_postcodes total_trucks = Ok n.

(** The number of postcodes assigned to [w]: [len(warehouse_assignments[w])]
    where [w] is a key. *)
Definition assigned_count (warehouse_assignments : dict string (list string))
    (w : string) : Z :=
  len (Dict.get_default warehouse_assignments w []).

(** The distance [get_distance] returns for a pair, if it returns one. *)
Definition returned_distance (self : RouteOptimiser) (origin destination : string)
  : option Z :=
  match value (get_distance self origin destination) with
  | Ok (Some d) => Some d
  | _ => None
  end.

(** [w] is the first warehouse of [warehouses], in input order, among those
    whose returned distance to [postcode] is minimal. *)
Definition first_nearest (self : RouteOptimiser) (warehouses : list string)
    (postcode w : string) : Prop :=
  exists d l1 l2,
    warehouses = l1 ++ w :: l2 /\
    returned_distance self w postcode = Some d /\
    (forall w' d', In w' l1 ->
       returned_distance self w' postcode = Some d' -> d < d') /\
    (forall w' d', In w' l2 ->
       returned_distance self w' postcode = Some d' -> d <= d').

(** The warehouse the loop body of [assign_postcodes_to_warehouses] appends
    [postcode] to. *)
Definition target_warehouse (warehouse_distances : dict string (dict string Z))
    (warehouses : list string) (postcode : string) : result string :=
  found <- nearest_loop warehouse_distances postcode warehouses Infinity None ;;
  chosen_warehouse warehouses (snd found).

(** The distance the matrix holds for [(w, p)] once [postcodes] were
    queried: the one returned, when [p] is one of them. *)
Definition queried (self : RouteOptimiser) (postcodes : list string)
    (w p : string) : option Z :=
  if in_dec string_dec p postcodes then returned_distance self w p else None.

(** The matrix row of [w] holds the distance returned for [postcode]. *)
Definition row_ok (self : RouteOptimiser)
    (warehouse_distances : dict string (dict string Z))
    (postcode w : string) : Prop :=
  exists row,
    Dict.get warehouse_distances w = Some row /\
    Dict.get row postcode = returned_distance self w postcode.

(** What the loop over the warehouses knows after the warehouses [seen]:
    nothing was returned so far, or [nearest_warehouse] is the first of the
    nearest ones among [seen]. *)
Definition scanned (self : RouteOptimiser) (postcode : string)
    (seen : list string) (min_distance : bound)
    (nearest_warehouse : option string) : Prop :=
  (min_distance = Infinity /\ nearest_warehouse = None /\
   forall w, In w seen -> returned_distance self w postcode = None)
  \/
  (exists w d, min_distance = Finite d /\ nearest_warehouse = Some w /\
               first_nearest self seen postcode w /\
               returned_distance self w postcode = Some d).

(** The postcode [p] is in the list of [w], and in no other list. *)
Definition only_at (wa : dict string (list string)) (p w : string) : Prop :=
  exists l,
    Dict.get wa w = Some l /\ In p l /\
    forall w' l', Dict.get wa w' = Some l' -> In p l' -> w' = w.

(** The legs [get_optimised_route] returns for the closed route of one
    vehicle. *)
Definition route_legs (self : RouteOptimiser) (warehouse : string)
    (stops : list string) : list leg :=
  match value (get_optimised_route self ([warehouse] ++ stops ++ [warehouse])) with
  | Ok legs => legs
  | Raise _ => []
  end.

(** The entry of [truck_routes] for one vehicle with stops: the resolved
    labels of the legs, and the sum of the leg distances divided by 1000. *)
Definition route_of (self : RouteOptimiser) (warehouse : string)
    (stops : list string) : result truck_route :=
  let legs := route_legs self warehouse stops in
  km <- Float.int_true_div (sum_int (map distance legs)) 1000 ;;
  ret {| route := map end_address legs; total_distance := km |}.

(** [if stops:] *)
Definition has_stops (item : Z * list string) : bool :=
  match snd item with
  | [] => false
  | _ :: _ => true
  end.

(** [if assigned_postcodes:] for the list of [w]. *)
Definition has_postcodes (warehouse_assignments : dict string (list string))
    (w : string) : bool :=
  match Dict.get warehouse_assignments w with
  | Some (_ :: _) => true
  | _ => false
  end.

(** The distances [main] adds up for one warehouse. *)
Definition reported_distances (wr : warehouse_report) : list float :=
  map truck_distance (truck_reports wr).

(** The printed vehicle [tr] is the entry of the vehicle [item] of
    [warehouse]: its stops are the resolved labels of the legs, its distance
    is the sum of the leg distances divided by 1000. *)
Definition vehicle_reported (self : RouteOptimiser) (warehouse : string)
    (item : Z * list string) (tr : truck_report) : Prop :=
  route_of self warehouse (snd item)
  = Ok {| route := truck_stops tr; total_distance := truck_distance tr |}.

(** One printed warehouse: its vehicles are the entries of its loads, in
    order, and its total is their sum, accumulated from [0]. *)
Definition warehouse_reported (self : RouteOptimiser)
    (warehouse_assignments : dict string (list string))
    (trucks_per_warehouse : dict string Z) (wr : warehouse_report) : Prop :=
  (exists assigned trucks,
      Dict.get warehouse_assignments (reported_warehouse wr) = Some assigned /\
      Dict.get trucks_per_warehouse (reported_warehouse wr)
      = Some (assigned_trucks wr) /\
      divide_postcodes_among_trucks assigned (assigned_trucks wr) = Ok trucks /\
      Forall2 (vehicle_reported self (reported_warehouse wr))
              (filter has_stops (Dict.items trucks)) (truck_reports wr)) /\
  warehouse_total_distance wr = Float.sum (reported_distances wr).

(** A float that is a zero or a finite number whose mantissa, read with
    its exponent, has at most [K] binary digits before the point, with an
    exponent of at most [E]: its magnitude is below [2 ^ K]. *)
Definition bounded_float (K E : Z) (x : float) : Prop :=
  match x with
  | S754_zero _ => True
  | S754_finite _ m e => Zpos (digits2_pos m) + e <= K /\ e <= E
  | _ => False
  end.

(** The same bound on a mantissa and an exponent before rounding. *)
Definition small (K E m e : Z) : Prop :=
  0 <= m /\ e <= E /\ (m = 0 \/ Zdigits2 m + e <= K).

(** ** Concrete services, for the examples *)

(** A Distance Matrix service that answers the listed
    [(origin, destination, meters)] requests and finds nothing else. *)
Definition distance_table (key : string) (table : list (string * string * Z))
    (url : string) : distance_response :=
  match find (fun row => String.eqb url
                           (distance_url key (fst (fst row)) (snd (fst row))))
             table with
  | Some row => DistanceValue (snd row)
  | None => DistanceMissing
  end.

(** A Directions service that answers the listed closed routes
    [(warehouse, stops, legs)] and has status other than "OK" for the rest. *)
Definition directions_table (key : string)
    (table : list (string * list string * list leg))
    (url : string) : directions_response :=
  match find (fun row => String.eqb url
                           (directions_url key (fst (fst row)) (fst (fst row))
                              (String.concat "|" (snd (fst row)))))
             table with
  | Some row => DirectionsLegs (snd row)
  | None => DirectionsNotOk
  end.

Definition example_optimiser (distances : list (string * string * Z))
    (routes : list (string * list string * list leg)) : RouteOptimiser :=
  {| api_key := "KEY";
     distance_matrix_service := distance_table "KEY" distances;
     directions_service := directions_table "KEY" routes |}.

(** Two warehouses and three vehicles whose routes are 100 m, 200 m and
    300 m long. *)
Definition three_routes : RouteOptimiser :=
  example_optimiser
    [("A", "p1", 1); ("B", "p2", 1); ("B", "p3", 1)]
    [("A", ["p1"], [{| end_address := "p1 street"; distance := 60 |};
                    {| end_address := "A street"; distance := 40 |}]);
     ("B", ["p2"], [{| end_address := "p2 street"; distance := 100 |};
                    {| end_address := "B street"; distance := 100 |}]);
     ("B", ["p3"], [{| end_address := "p3 street"; distance := 150 |};
                    {| end_address := "B street"; distance := 150 |}])].

(** One warehouse whose only route the Directions service does not answer
    with status "OK". *)
Definition no_route : RouteOptimiser :=
  example_optimiser [("A", "p", 1)] [].

(** The binary64 values nearest to 0.1, 0.2, 0.3, 0.5, 0.6, and the float
    that follows 0.6 (0.6000000000000001). *)
Definition f0_1 : float := S754_finite false 7205759403792794 (-56).
Definition f0_2 : float := S754_finite false 7205759403792794 (-55).
Definition f0_3 : float := S754_finite false 5404319552844595 (-54).
Definition f0_5 : float := S754_finite false 4503599627370496 (-53).
Definition f0_6 : float := S754_finite false 5404319552844595 (-53).
Definition f0_6_next : float := S754_finite false 5404319552844596 (-53).

(** What [main] reports for [three_routes] with three trucks. *)
Definition three_routes_report : report :=
  {| warehouse_reports :=
       [{| reported_warehouse := "A";
           warehouse_label := "A";
           assigned_trucks := 1;
           truck_reports :=
             [{| actual_truck_id := 1;
                 truck_distance := f0_1;
                 truck_stops := ["p1 street"; "A street"] |}];
           warehouse_total_distance := f0_1 |};
        {| reported_warehouse := "B";
           warehouse_label := "B";
           assigned_trucks := 2;
           truck_reports :=
             [{| actual_truck_id := 2;
                 truck_distance := f0_2;
                 truck_stops := ["p2 street"; "B street"] |};
              {| actual_truck_id := 3;
                 truck_distance := f0_3;
                 truck_stops := ["p3 street"; "B street"] |}];
           warehouse_total_distance := f0_5 |}];
     grand_total_distance := f0_6_next |}.

(** ** Notions used to state the further properties *)

(** [list(range(start, stop))] *)
Definition range (start stop : Z) : list Z :=
  map (fun i => start + Z.of_nat i) (seq 0 (Z.to_nat (stop - start))).

(** The loop body of [assign_postcodes_to_warehouses] appends [postcode] to
    the list of [w]. *)
Definition sent_to (warehouse_distances : dict string (dict string Z))
    (warehouses : list string) (w postcode : string) : bool :=
  match target_warehouse warehouse_distances warehouses postcode with
  | Ok w' => String.eqb w' w
  | Raise _ => false
  end.

(** The vehicles [main] prints, in the order it prints them. *)
Definition printed_trucks (reports : list warehouse_report) : list truck_report :=
  concat (map truck_reports reports).

(** The label of a printed warehouse:
    [warehouse_alias.get(warehouse, warehouse)]. *)
Definition labelled (warehouse_alias : dict string string)
    (wr : warehouse_report) : Prop :=
  warehouse_label wr
  = Dict.get_default warehouse_alias (reported_warehouse wr)
      (reported_warehouse wr).

(** The trucks of a printed warehouse: their number is its entry of
    [trucks_per_warehouse] and is not zero; when it is positive, one vehicle
    is printed for each truck that got a postcode. *)
Definition vehicles_counted (warehouse_assignments : dict string (list string))
    (trucks_per_warehouse : dict string Z) (wr : warehouse_report) : Prop :=
  Dict.get trucks_per_warehouse (reported_warehouse wr)
  = Some (assigned_trucks wr) /\
  assigned_trucks wr <> 0 /\
  (0 < assigned_trucks wr ->
   len (truck_reports wr)
   = Z.min (assigned_count warehouse_assignments (reported_warehouse wr))
           (assigned_trucks wr)).

(** A float that is a zero or a finite number. *)
Definition is_finite (x : float) : bool :=
  match x with
  | S754_zero _ | S754_finite _ _ _ => true
  | _ => false
  end.

(** The exceptions of arithmetic. *)
Definition arithmetic (e : exn) : Prop :=
  e = ZeroDivisionError \/ e = OverflowError.

(** Every answer of the Directions service describes a route whose legs add
    up to less than [2 ^ 1000] metres. *)
Definition routes_bounded (self : RouteOptimiser) : Prop :=
  forall url legs,
    directions_service self url = DirectionsLegs legs ->
    Z.abs (sum_int (map distance legs)) < 2 ^ 1000.

(** Four warehouses with one postcode each, and no route answered with
    status "OK". *)
Definition one_postcode_each : RouteOptimiser :=
  example_optimiser
    [("A", "p1", 1); ("B", "p2", 1); ("C", "p3", 1); ("D", "p4", 1)] [].

(** * Properties *)

Lemma value_bind {A B} (m : Py A) (f : A -> Py B) :
  value (bind m f) =
  match value m with
  | Ok a => value (f a)
  | Raise e => Raise e
  end.
Proof.
  unfold value; simpl. destruct (fst m); reflexivity.
Qed.

Lemma value_lift {A} (r : result A) : value (lift r) = r.
Proof. reflexivity. Qed.

(** ** Dictionaries *)

Module DictFacts.
Section DictFacts.
Context {K V : Type} `{Hashable K}.
Implicit Types (d : dict K V) (k : K) (v : V).

Lemma key_eqb_refl k : key_eqb k k = true.
Proof. destruct (key_eqb_spec k k); congruence. Qed.

Lemma key_eqb_neq k k' : k <> k' -> key_eqb k k' = false.
Proof. destruct (key_eqb_spec k k'); congruence. Qed.

Lemma get_setitem_same d k v : Dict.get (Dict.setitem d k v) k = Some v.
Proof.
  induction d as [|[k' v'] d IH]; simpl.
  - now rewrite key_eqb_refl.
  - destruct (key_eqb_spec k' k) as [->|N]; simpl.
    + now rewrite key_eqb_refl.
    + now rewrite key_eqb_neq.
Qed.

Lemma get_setitem_other d k k' v :
  k <> k' -> Dict.get (Dict.setitem d k v) k' = Dict.get d k'.
Proof.
  intros N. induction d as [|[k0 v0] d IH]; simpl.
  - now rewrite key_eqb_neq.
  - destruct (key_eqb_spec k0 k) as [->|N0]; simpl.
    + now rewrite key_eqb_neq.
    + now rewrite IH.
Qed.

Lemma get_setitem d k k' v :
  Dict.get (Dict.setitem d k v) k' =
  if key_eqb k k' then Some v else Dict.get d k'.
Proof.
  destruct (key_eqb_spec k k') as [->|N].
  - apply get_setitem_same.
  - now apply get_setitem_other.
Qed.

Lemma get_None_keys d k : Dict.get d k = None <-> ~ In k (Dict.keys d).
Proof.
  induction d as [|[k' v'] d IH]; simpl.
  - tauto.
  - destruct (key_eqb_spec k' k) as [->|N].
    + split; [discriminate | tauto].
    + rewrite IH. tauto.
Qed.

Lemma get_Some_keys d k v : Dict.get d k = Some v -> In k (Dict.keys d).
Proof.
  intros G. destruct (in_dec (fun x y => reflect_dec _ _ (key_eqb_spec x y))
                        k (Dict.keys d)) as [I|I]; [exact I|].
  apply get_None_keys in I. congruence.
Qed.

Lemma keys_get_Some d k : In k (Dict.keys d) -> exists v, Dict.get d k = Some v.
Proof.
  intros I. destruct (Dict.get d k) as [v|] eqn:G; [eauto|].
  apply get_None_keys in G. contradiction.
Qed.

Lemma get_Some_In d k v : Dict.get d k = Some v -> In (k, v) d.
Proof.
  induction d as [|[k' v'] d IH]; simpl; [discriminate|].
  destruct (key_eqb_spec k' k) as [->|N].
  - intros [= ->]. now left.
  - intros G. right. auto.
Qed.

Lemma In_get_Some d k v :
  NoDup (Dict.keys d) -> In (k, v) d -> Dict.get d k = Some v.
Proof.
  induction d as [|[k' v'] d IH]; simpl; [tauto|].
  intros ND [E|I].
  - injection E as -> ->. now rewrite key_eqb_refl.
  - inversion ND as [|? ? NI ND']; subst.
    destruct (key_eqb_spec k' k) as [->|N].
    + exfalso. apply NI. change k with (fst (k, v)). now apply in_map.
    + auto.
Qed.

Lemma keys_setitem_present d k v :
  In k (Dict.keys d) -> Dict.keys (Dict.setitem d k v) = Dict.keys d.
Proof.
  induction d as [|[k' v'] d IH]; simpl; [tauto|].
  intros I. destruct (key_eqb_spec k' k) as [->|N]; simpl; [reflexivity|].
  f_equal. apply IH. destruct I; [contradiction | assumption].
Qed.

Lemma keys_setitem_absent d k v :
  ~ In k (Dict.keys d) -> Dict.keys (Dict.setitem d k v) = Dict.keys d ++ [k].
Proof.
  induction d as [|[k' v'] d IH]; simpl; [reflexivity|].
  intros NI. destruct (key_eqb_spec k' k) as [->|N]; simpl; [tauto|].
  f_equal. apply IH. tauto.
Qed.

Lemma in_keys_setitem d k v k' :
  In k' (Dict.keys (Dict.setitem d k v)) <-> k' = k \/ In k' (Dict.keys d).
Proof.
  destruct (in_dec (fun x y => reflect_dec _ _ (key_eqb_spec x y))
              k (Dict.keys d)) as [I|I].
  - rewrite keys_setitem_present by assumption.
    split; [tauto | intros [->|]; assumption].
  - rewrite keys_setitem_absent by assumption.
    rewrite in_app_iff; simpl. intuition congruence.
Qed.

Lemma NoDup_keys_setitem d k v :
  NoDup (Dict.keys d) -> NoDup (Dict.keys (Dict.setitem d k v)).
Proof.
  intros ND.
  destruct (in_dec (fun x y => reflect_dec _ _ (key_eqb_spec x y))
              k (Dict.keys d)) as [I|I].
  - now rewrite keys_setitem_present.
  - rewrite keys_setitem_absent by assumption.
    apply NoDup_app; [assumption | repeat constructor; simpl; tauto |].
    intros x Ix [<-|[]]. contradiction.
Qed.

Lemma NoDup_keys_comprehension (f : K -> V) (ks : list K) :
  NoDup (Dict.keys (Dict.comprehension f ks)).
Proof.
  unfold Dict.comprehension.
  assert (G : forall d, NoDup (Dict.keys d) ->
            NoDup (Dict.keys (fold_left (fun d k => Dict.setitem d k (f k)) ks d))).
  { induction ks as [|k ks IH]; simpl; intros d ND; [assumption|].
    apply IH. now apply NoDup_keys_setitem. }
  apply G. constructor.
Qed.

Lemma get_comprehension (f : K -> V) (ks : list K) k :
  Dict.get (Dict.comprehension f ks) k = if in_dec (fun x y => reflect_dec _ _ (key_eqb_spec x y)) k ks then Some (f k) else None.
Proof.
  unfold Dict.comprehension.
  assert (G : forall d,
            Dict.get (fold_left (fun d k => Dict.setitem d k (f k)) ks d) k =
            if in_dec (fun x y => reflect_dec _ _ (key_eqb_spec x y)) k ks
            then Some (f k) else Dict.get d k).
  { induction ks as [|k0 ks IH]; simpl; intros d; [reflexivity|].
    rewrite IH, get_setitem.
    destruct (in_dec _ k ks) as [I|I].
    - destruct (reflect_dec _ _ (key_eqb_spec k0 k)); reflexivity.
    - destruct (key_eqb_spec k0 k) as [->|N].
      + destruct (reflect_dec _ _ (key_eqb_spec k k)); [reflexivity | congruence].
      + destruct (reflect_dec _ _ (key_eqb_spec k0 k)); [congruence | reflexivity]. }
  rewrite G. reflexivity.
Qed.
End DictFacts.
End DictFacts.

(** ** divide_postcodes_among_trucks *)

Section DivideFacts.
Import DictFacts.

Lemma enumerate_from_app {A} (l : list A) (x : A) (start : Z) :
  enumerate_from start (l ++ [x]) =
  enumerate_from start l ++ [(start + len l, x)].
Proof.
  revert start. induction l as [|y l IH]; intros start; simpl.
  - unfold len; simpl. now rewrite Z.add_0_r.
  - rewrite IH.
    replace (start + 1 + len l) with (start + len (y :: l))
      by (unfold len; simpl length; lia).
    reflexivity.
Qed.

Lemma enumerate_app {A} (l : list A) (x : A) :
  enumerate (l ++ [x]) = enumerate l ++ [(len l, x)].
Proof. unfold enumerate. now rewrite enumerate_from_app. Qed.

Lemma map_snd_enumerate_from {A} (l : list A) (start : Z) :
  map snd (enumerate_from start l) = l.
Proof.
  revert start. induction l as [|y l IH]; intros start; simpl;
    [reflexivity | now rewrite IH].
Qed.

Lemma round_robin_load_app n j l1 l2 :
  round_robin_load n j (l1 ++ l2) =
  round_robin_load n j l1 ++ round_robin_load n j l2.
Proof. unfold round_robin_load. now rewrite filter_app, map_app. Qed.

Lemma concat_values_append {K} `{Hashable K} (d : dict K (list string)) k x :
  Permutation (concat (Dict.values (defaultdict_append d k x)))
              (x :: concat (Dict.values d)).
Proof.
  unfold defaultdict_append, Dict.get_default.
  induction d as [|[k' v'] d IH]; simpl.
  - reflexivity.
  - destruct (key_eqb_spec k' k) as [->|N]; simpl.
    + rewrite <- app_assoc. simpl.
      symmetry. apply Permutation_middle.
    + rewrite IH. symmetry. apply Permutation_middle.
Qed.

Lemma load_of_append (d : dict Z (list string)) k x j :
  load_of (defaultdict_append d k x) j =
  if k =? j then load_of d j ++ [x] else load_of d j.
Proof.
  unfold load_of, defaultdict_append, Dict.get_default.
  rewrite get_setitem. simpl.
  destruct (Z.eqb_spec k j) as [->|N]; reflexivity.
Qed.

(** What the loop does to every load, to the keys and to the contents. *)
Lemma divide_loop_spec indexed n :
  n <> 0 ->
  forall d, exists d',
    divide_loop indexed n d = Ok d' /\
    (forall j, load_of d' j = load_of d j ++ round_robin_load n j indexed) /\
    (NoDup (Dict.keys d) -> NoDup (Dict.keys d')) /\
    (forall k, In k (Dict.keys d') ->
               In k (Dict.keys d) \/ exists i, k = i mod n) /\
    Permutation (concat (Dict.values d'))
                (concat (Dict.values d) ++ map snd indexed).
Proof.
  intros Hn. induction indexed as [|[i pc] rest IH]; intros d; simpl.
  - exists d. repeat split; auto.
    + intros j. unfold round_robin_load; simpl. now rewrite app_nil_r.
    + now rewrite app_nil_r.
  - unfold py_mod. destruct (Z.eqb_spec n 0) as [E|_]; [contradiction|].
    destruct (IH (defaultdict_append d (i mod n) pc))
      as (d' & Run & Loads & ND & Keys & Perm).
    exists d'. split; [exact Run|]. repeat split.
    + intros j. rewrite Loads, load_of_append.
      unfold round_robin_load; simpl.
      destruct (Z.eqb_spec (i mod n) j) as [E|N]; simpl.
      * now rewrite <- app_assoc.
      * reflexivity.
    + intros NDd. apply ND. unfold defaultdict_append.
      now apply NoDup_keys_setitem.
    + intros k I. apply Keys in I. destruct I as [I|I]; [|now right].
      unfold defaultdict_append in I. apply in_keys_setitem in I.
      destruct I as [->|I]; [right; eauto | now left].
    + rewrite Perm, concat_values_append. simpl.
      apply Permutation_middle.
Qed.

Lemma succ_div_mod (L n : Z) :
  0 < n -> 0 <= L ->
  (L mod n + 1 < n -> (L + 1) / n = L / n /\ (L + 1) mod n = L mod n + 1) /\
  (L mod n + 1 = n -> (L + 1) / n = L / n + 1 /\ (L + 1) mod n = 0).
Proof.
  intros Hn HL.
  pose proof (Z.div_mod L n ltac:(lia)) as E.
  pose proof (Z.mod_pos_bound L n Hn) as B.
  split; intros R.
  - assert (Q : (L + 1) / n = L / n).
    { symmetry. apply Z.div_unique with (r := L mod n + 1); lia. }
    split; [exact Q|].
    symmetry. apply Z.mod_unique with (q := L / n); lia.
  - assert (Q : (L + 1) / n = L / n + 1).
    { symmetry. apply Z.div_unique with (r := 0); lia. }
    split; [exact Q|].
    symmetry. apply Z.mod_unique with (q := L / n + 1); lia.
Qed.

(** The size of each load after [L] postcodes. *)
Lemma round_robin_load_length (l : list string) n j :
  0 < n -> 0 <= j < n ->
  len (round_robin_load n j (enumerate l)) =
  len l / n + (if j <? len l mod n then 1 else 0).
Proof.
  intros Hn Hj. induction l as [|x l IH] using rev_ind.
  - unfold len; simpl. rewrite Z.mod_0_l by lia.
    destruct (Z.ltb_spec j 0); [lia | reflexivity].
  - rewrite enumerate_app, round_robin_load_app.
    unfold len in *. rewrite !length_app, !Nat2Z.inj_add, IH.
    change (Z.of_nat (length [x])) with 1.
    set (L := Z.of_nat (length l)) in *.
    assert (HL : 0 <= L) by (subst L; lia).
    pose proof (Z.mod_pos_bound L n Hn) as B.
    destruct (succ_div_mod L n Hn HL) as [S1 S2].
    unfold round_robin_load at 1; simpl.
    destruct (Z.eqb_spec (L mod n) j) as [Ej|Nj]; simpl length.
    + destruct (Z.ltb_spec j (L mod n)); [lia|].
      destruct (Z.eq_dec (L mod n + 1) n) as [Wrap|NoWrap].
      * destruct (S2 Wrap) as [-> ->].
        destruct (Z.ltb_spec j 0); lia.
      * destruct (S1 ltac:(lia)) as [-> ->].
        destruct (Z.ltb_spec j (L mod n + 1)); lia.
    + destruct (Z.eq_dec (L mod n + 1) n) as [Wrap|NoWrap].
      * destruct (S2 Wrap) as [-> ->].
        destruct (Z.ltb_spec j (L mod n)); destruct (Z.ltb_spec j 0); lia.
      * destruct (S1 ltac:(lia)) as [-> ->].
        destruct (Z.ltb_spec j (L mod n));
          destruct (Z.ltb_spec j (L mod n + 1)); lia.
Qed.

(** Where the [i]-th postcode sits in its load. *)
Lemma round_robin_load_nth (l : list string) n i pc :
  0 < n -> nth_error l i = Some pc ->
  nth_error (round_robin_load n (Z.of_nat i mod n) (enumerate l))
            (Z.to_nat (Z.of_nat i / n)) = Some pc.
Proof.
  intros Hn. induction l as [|x l IH] using rev_ind; intros Hi.
  - destruct i; discriminate.
  - rewrite enumerate_app, round_robin_load_app.
    destruct (Nat.lt_ge_cases i (length l)) as [Lt|Ge].
    + rewrite nth_error_app1 in Hi by assumption.
      specialize (IH Hi).
      rewrite nth_error_app1; [exact IH|].
      apply nth_error_Some. congruence.
    + assert (i = length l) as ->.
      { assert (i < length (l ++ [x]))%nat by (apply nth_error_Some; congruence).
        rewrite length_app in *; simpl in *; lia. }
      rewrite nth_error_app2 in Hi by lia.
      rewrite Nat.sub_diag in Hi; simpl in Hi. injection Hi as ->.
      pose proof (Z.mod_pos_bound (Z.of_nat (length l)) n Hn) as B.
      pose proof (round_robin_load_length l n _ Hn B) as Len.
      unfold len in Len.
      destruct (Z.ltb_spec (Z.of_nat (length l) mod n)
                           (Z.of_nat (length l) mod n)); [lia|].
      rewrite Z.add_0_r in Len. rewrite <- Len, Nat2Z.id.
      rewrite nth_error_app2 by lia. rewrite Nat.sub_diag.
      unfold round_robin_load, len; simpl.
      now rewrite Z.eqb_refl.
Qed.
End DivideFacts.

(** ** Floats: when the operations return *)

Section FloatFacts.

Lemma pow2_pos (n : Z) : 0 <= n -> 0 < 2 ^ n.
Proof. intros. apply Z.pow_pos_nonneg; lia. Qed.

Lemma pow2_succ (n : Z) : 0 <= n -> 2 ^ (n + 1) = 2 * 2 ^ n.
Proof. intros. rewrite Z.pow_add_r by lia. lia. Qed.

(** [digits2_pos p] is the number of binary digits of [p]. *)
Lemma digits2_pos_upper (p : positive) : Zpos p < 2 ^ Zpos (digits2_pos p).
Proof.
  induction p as [p IH|p IH|]; simpl digits2_pos.
  - rewrite Pos2Z.inj_succ, <- Z.add_1_r, pow2_succ by lia. lia.
  - rewrite Pos2Z.inj_succ, <- Z.add_1_r, pow2_succ by lia. lia.
  - reflexivity.
Qed.

Lemma digits2_pos_lower (p : positive) : 2 ^ (Zpos (digits2_pos p) - 1) <= Zpos p.
Proof.
  induction p as [p IH|p IH|]; simpl digits2_pos.
  - rewrite Pos2Z.inj_succ, <- Z.add_1_r.
    replace (Zpos (digits2_pos p) + 1 - 1) with (Zpos (digits2_pos p) - 1 + 1) by lia.
    rewrite pow2_succ by lia. lia.
  - rewrite Pos2Z.inj_succ, <- Z.add_1_r.
    replace (Zpos (digits2_pos p) + 1 - 1) with (Zpos (digits2_pos p) - 1 + 1) by lia.
    rewrite pow2_succ by lia. lia.
  - simpl. lia.
Qed.

Lemma Zdigits2_nonneg (m : Z) : 0 <= Zdigits2 m.
Proof. destruct m; simpl; lia. Qed.

Lemma Zdigits2_upper (m : Z) : 0 <= m -> m < 2 ^ Zdigits2 m.
Proof.
  destruct m as [|p|p]; simpl; intros; [lia | apply digits2_pos_upper | lia].
Qed.

Lemma Zdigits2_le (m n : Z) : 0 <= m -> 0 <= n -> m < 2 ^ n -> Zdigits2 m <= n.
Proof.
  intros Hm Hn Lt. destruct m as [|p|p]; simpl; [lia | | lia].
  destruct (Z.le_gt_cases (Zpos (digits2_pos p)) n) as [|Gt]; [assumption|].
  pose proof (digits2_pos_lower p) as Lo.
  assert (2 ^ n <= 2 ^ (Zpos (digits2_pos p) - 1))
    by (apply Z.pow_le_mono_r; lia).
  lia.
Qed.

Lemma shr_1_m (mrs : shr_record) :
  0 <= shr_m mrs -> shr_m (shr_1 mrs) = shr_m mrs / 2.
Proof.
  destruct mrs as [m r s]. simpl. intros Hm.
  destruct m as [|[p|p|]|p]; simpl; try lia.
  - reflexivity.
  - apply Z.div_unique with (r := 1); lia.
  - apply Z.div_unique with (r := 0); lia.
  - reflexivity.
Qed.

Lemma div_pow2_pow2 (m a b : Z) :
  0 <= a -> 0 <= b -> m / 2 ^ a / 2 ^ b = m / 2 ^ (a + b).
Proof.
  intros Ha Hb. pose proof (pow2_pos a Ha). pose proof (pow2_pos b Hb).
  rewrite Z.pow_add_r by assumption.
  apply Z.div_div; lia.
Qed.

Lemma div_pow2_nonneg (m a : Z) : 0 <= m -> 0 <= a -> 0 <= m / 2 ^ a.
Proof. intros. apply Z.div_pos; [assumption | now apply pow2_pos]. Qed.

Lemma iter_shr_1_m (p : positive) : forall mrs,
  0 <= shr_m mrs ->
  shr_m (iter_pos shr_1 p mrs) = shr_m mrs / 2 ^ Zpos p.
Proof.
  induction p as [p IH|p IH|]; intros mrs Hm; simpl iter_pos.
  - assert (H1 : 0 <= shr_m (shr_1 mrs))
      by (rewrite shr_1_m by assumption; apply (div_pow2_nonneg _ 1); lia).
    assert (H2 : 0 <= shr_m (iter_pos shr_1 p (shr_1 mrs)))
      by (rewrite IH by assumption; apply div_pow2_nonneg; lia).
    rewrite IH, IH, shr_1_m by assumption.
    change (shr_m mrs / 2) with (shr_m mrs / 2 ^ 1).
    rewrite !div_pow2_pow2 by lia. f_equal. f_equal. lia.
  - assert (H2 : 0 <= shr_m (iter_pos shr_1 p mrs))
      by (rewrite IH by assumption; apply div_pow2_nonneg; lia).
    rewrite IH, IH by assumption.
    rewrite !div_pow2_pow2 by lia. f_equal. f_equal. lia.
  - rewrite shr_1_m by assumption. reflexivity.
Qed.

Local Abbreviation fexp := (SpecFloat.fexp Float.prec Float.emax).

Lemma fexp_eq (e : Z) : fexp e = Z.max (e - 53) (-1074).
Proof. reflexivity. Qed.

Lemma shr_record_of_loc_m (m : Z) (l : location) :
  shr_m (shr_record_of_loc m l) = m.
Proof. destruct l as [|[| |]]; reflexivity. Qed.

(** [shr_fexp] divides the mantissa by a power of two and raises the
    exponent by as much, up to [fexp]. *)
Lemma shr_fexp_spec (m e : Z) (l : location) :
  0 <= m ->
  exists k,
    0 <= k /\
    shr_m (fst (shr_fexp Float.prec Float.emax m e l)) = m / 2 ^ k /\
    snd (shr_fexp Float.prec Float.emax m e l) = e + k /\
    e + k = Z.max e (fexp (Zdigits2 m + e)).
Proof.
  intros Hm. unfold shr_fexp, shr.
  fold fexp.
  destruct (fexp (Zdigits2 m + e) - e) as [|p|p] eqn:D; simpl.
  - exists 0. rewrite shr_record_of_loc_m, Z.div_1_r. lia.
  - exists (Zpos p). rewrite iter_shr_1_m, shr_record_of_loc_m
      by (rewrite shr_record_of_loc_m; assumption).
    lia.
  - exists 0. rewrite shr_record_of_loc_m, Z.div_1_r. lia.
Qed.

Lemma small_shift (K E m e k : Z) :
  small K E m e -> 0 <= k -> e + k <= E -> small K E (m / 2 ^ k) (e + k).
Proof.
  intros (Hm & He & Hd) Hk HE. split; [now apply div_pow2_nonneg|].
  split; [assumption|].
  destruct Hd as [->|Hd]; [left; apply Z.div_0_l; pose proof (pow2_pos k); lia|].
  pose proof (Zdigits2_upper m Hm) as Up.
  pose proof (Zdigits2_nonneg m) as Dn.
  destruct (Z.le_gt_cases (Zdigits2 m) k) as [Le|Gt].
  - left. apply Z.div_small. split; [assumption|].
    assert (2 ^ Zdigits2 m <= 2 ^ k) by (apply Z.pow_le_mono_r; lia). lia.
  - right.
    assert (m / 2 ^ k < 2 ^ (Zdigits2 m - k)).
    { apply Z.div_lt_upper_bound; [now apply pow2_pos|].
      rewrite <- Z.pow_add_r by lia.
      replace (k + (Zdigits2 m - k)) with (Zdigits2 m) by lia. assumption. }
    assert (Zdigits2 (m / 2 ^ k) <= Zdigits2 m - k)
      by (apply Zdigits2_le; [now apply div_pow2_nonneg | lia | assumption]).
    lia.
Qed.

Lemma small_round (K E m e : Z) (l : location) :
  small K E m e -> small (Z.max K E + 1) E (round_nearest_even m l) e.
Proof.
  intros (Hm & He & Hd).
  assert (Succ : small (Z.max K E + 1) E (m + 1) e).
  { split; [lia|]. split; [assumption|]. right.
    destruct Hd as [->|Hd]; [change (Zdigits2 (0 + 1)) with 1; lia|].
    pose proof (Zdigits2_upper m Hm) as Up.
    pose proof (Zdigits2_nonneg m) as Dn.
    assert (Zdigits2 (m + 1) <= Zdigits2 m + 1).
    { apply Zdigits2_le; [lia | lia |]. rewrite pow2_succ by assumption. lia. }
    lia. }
  assert (Same : small (Z.max K E + 1) E m e).
  { split; [assumption|]. split; [assumption|].
    destruct Hd as [->|Hd]; [now left | right; lia]. }
  destruct l as [|[| |]]; simpl; try assumption.
  destruct (Z.even m); assumption.
Qed.

(** The result of rounding a small enough mantissa is a zero or a finite
    float, with bounds one bit larger. *)
Lemma binary_round_aux_bounded (K E : Z) (sx : bool) (mx ex : Z) (lx : location) :
  small K E mx ex -> K <= 1022 -> E <= 970 ->
  bounded_float (Z.max K (Z.max E (-1074)) + 1) (Z.max E (Z.max (K - 52) (-1074)))
    (binary_round_aux Float.prec Float.emax sx mx ex lx).
Proof.
  intros S HK HE. unfold binary_round_aux.
  destruct S as (Hm & He & Hd).
  destruct (shr_fexp_spec mx ex lx Hm) as (k1 & Hk1 & M1 & E1 & Max1).
  destruct (shr_fexp Float.prec Float.emax mx ex lx) as [mrs1 e1].
  simpl in M1, E1. subst e1.
  set (E' := Z.max E (Z.max (K - 53) (-1074))).
  assert (HE1 : ex + k1 <= E').
  { rewrite Max1, fexp_eq. subst E'.
    destruct Hd as [->|Hd]; [change (Zdigits2 0) with 0|]; lia. }
  assert (S1 : small K E' (shr_m mrs1) (ex + k1)).
  { rewrite M1. apply small_shift; [|assumption|assumption].
    split; [assumption|]. split; [subst E'; lia | assumption]. }
  pose proof (small_round K E' _ _ (loc_of_shr_record mrs1) S1) as S2.
  set (m2 := round_nearest_even (shr_m mrs1) (loc_of_shr_record mrs1)) in *.
  destruct S2 as (Hm2 & He2 & Hd2).
  destruct (shr_fexp_spec m2 (ex + k1) loc_Exact Hm2) as (k2 & Hk2 & M2 & E2 & Max2).
  destruct (shr_fexp Float.prec Float.emax m2 (ex + k1) loc_Exact) as [mrs2 e2].
  simpl in M2, E2. subst e2.
  set (E'' := Z.max E' (Z.max (Z.max K E' + 1 - 53) (-1074))).
  assert (HE2 : ex + k1 + k2 <= E'').
  { rewrite Max2, fexp_eq. subst E''.
    destruct Hd2 as [Z2|Hd2]; [rewrite Z2; change (Zdigits2 0) with 0|]; lia. }
  assert (S3 : small (Z.max K E' + 1) E'' (shr_m mrs2) (ex + k1 + k2)).
  { rewrite M2. apply small_shift; [|assumption|assumption].
    split; [assumption|]. split; [subst E''; lia | assumption]. }
  destruct S3 as (Hm3 & He3 & Hd3).
  destruct (shr_m mrs2) as [|m|m] eqn:Mz; [exact I| |lia].
  destruct Hd3 as [Hd3|Hd3]; [discriminate|]. simpl Zdigits2 in Hd3.
  replace (Float.emax - Float.prec) with 971 by reflexivity.
  destruct (Z.leb_spec (ex + k1 + k2) 971) as [Le|Gt].
  - unfold bounded_float. subst E'' E'. split; lia.
  - exfalso. subst E'' E'. lia.
Qed.

Lemma Zdigits2_lower (m : Z) : 0 < m -> 2 ^ (Zdigits2 m - 1) <= m.
Proof.
  destruct m as [|p|p]; simpl; intros; [lia | apply digits2_pos_lower | lia].
Qed.

Lemma Zdigits2_mono (m n : Z) : 0 <= m <= n -> Zdigits2 m <= Zdigits2 n.
Proof.
  intros [Hm Hn].
  apply Zdigits2_le; [assumption | apply Zdigits2_nonneg |].
  pose proof (Zdigits2_upper n ltac:(lia)). lia.
Qed.

(** The quotient of the scaled dividend has few digits. *)
Lemma quotient_small (m1 m2 s K : Z) :
  0 < m1 -> 0 < m2 -> 0 <= s ->
  Zdigits2 m1 - Zdigits2 m2 + 1 <= K ->
  small K 0 (m1 * 2 ^ s / m2) (- s).
Proof.
  intros H1 H2 Hs HK.
  pose proof (pow2_pos s Hs) as Ps.
  pose proof (Zdigits2_upper m1 ltac:(lia)) as U1.
  pose proof (Zdigits2_lower m2 H2) as L2.
  pose proof (Zdigits2_nonneg m1) as N1.
  assert (P2 : 0 < Zdigits2 m2) by (destruct m2; simpl in *; lia).
  split; [apply Z.div_pos; nia|]. split; [lia|].
  set (n := Zdigits2 m1 + s - Zdigits2 m2 + 1).
  assert (Up : m1 * 2 ^ s < 2 ^ (Zdigits2 m1 + s))
    by (rewrite Z.pow_add_r by lia; nia).
  destruct (Z.le_gt_cases 0 n) as [Pos|Neg].
  - right.
    assert (m1 * 2 ^ s / m2 < 2 ^ n).
    { apply Z.div_lt_upper_bound; [assumption|].
      assert (2 ^ (Zdigits2 m2 - 1) * 2 ^ n <= m2 * 2 ^ n)
        by (apply Z.mul_le_mono_nonneg_r; [pose proof (pow2_pos n Pos); lia | assumption]).
      rewrite <- Z.pow_add_r in H by lia.
      replace (Zdigits2 m2 - 1 + n) with (Zdigits2 m1 + s) in H by (subst n; lia).
      lia. }
    assert (Zdigits2 (m1 * 2 ^ s / m2) <= n)
      by (apply Zdigits2_le; [apply Z.div_pos; nia | assumption | assumption]).
    subst n. lia.
  - left. apply Z.div_small. split; [nia|].
    assert (2 ^ (Zdigits2 m1 + s) <= 2 ^ (Zdigits2 m2 - 1))
      by (apply Z.pow_le_mono_r; subst n; lia).
    lia.
Qed.

Lemma SFdiv_core_binary_small (m1 m2 K : Z) :
  0 < m1 -> 0 < m2 ->
  Zdigits2 m1 - Zdigits2 m2 + 1 <= K ->
  let '(q, e, _) := SFdiv_core_binary Float.prec Float.emax m1 0 m2 0 in
  small K 0 q e.
Proof.
  intros H1 H2 HK. unfold SFdiv_core_binary.
  set (e' := Z.min _ _).
  assert (He' : e' <= 0) by (subst e'; lia).
  replace (0 - 0 - e') with (- e') by lia.
  assert (M' : match - e' with
               | 0 => m1
               | Zpos _ => Z.shiftl m1 (- e')
               | Zneg _ => 0
               end = m1 * 2 ^ (- e')).
  { destruct (- e') as [|p|p] eqn:S; [lia | | lia].
    apply Z.shiftl_mul_pow2. lia. }
  rewrite M'.
  pose proof (quotient_small m1 m2 (- e') K H1 H2 ltac:(lia) HK) as Q.
  unfold Z.div in Q. destruct (Z.div_eucl _ m2) as [q r].
  now rewrite Z.opp_involutive in Q.
Qed.

(** Integer division returns, and the quotient is bounded, when the
    dividend is not too many bits longer than the divisor. *)
Lemma int_true_div_bounded (a b K : Z) :
  b <> 0 ->
  Zdigits2 (Z.abs a) - Zdigits2 (Z.abs b) + 1 <= K -> K <= 1022 ->
  exists x,
    Float.int_true_div a b = Ok x /\
    bounded_float (Z.max K 0 + 1) (Z.max 0 (K - 52)) x.
Proof.
  intros Hb HK K1022. unfold Float.int_true_div.
  destruct (Z.eqb_spec b 0) as [|_]; [contradiction|].
  destruct (Z.eqb_spec a 0) as [|Ha]; [eexists; split; [reflexivity | exact I]|].
  pose proof (SFdiv_core_binary_small (Z.abs a) (Z.abs b) K
                ltac:(lia) ltac:(lia) HK) as S.
  destruct (SFdiv_core_binary _ _ (Z.abs a) 0 (Z.abs b) 0) as [[q e] l].
  pose proof (binary_round_aux_bounded K 0 (xorb (a <? 0) (b <? 0)) q e l
                S K1022 ltac:(lia)) as B.
  destruct (binary_round_aux _ _ _ q e l) as [s|s| |s m e'];
    simpl in B; try contradiction.
  - eexists; split; [reflexivity | exact I].
  - eexists; split; [reflexivity|]. simpl. lia.
Qed.

Lemma iter_xO (m d : positive) : Zpos (Pos.iter xO m d) = Zpos m * 2 ^ Zpos d.
Proof.
  induction d as [|d IH] using Pos.peano_ind.
  - simpl. lia.
  - rewrite Pos.iter_succ, Pos2Z.inj_xO, IH, Pos2Z.inj_succ, Z.pow_succ_r by lia.
    lia.
Qed.

Lemma shl_align_small (mx : positive) (ex ex' : Z) :
  small (Zpos (digits2_pos mx) + ex) ex
        (Zpos (fst (shl_align mx ex ex'))) (snd (shl_align mx ex ex')).
Proof.
  unfold shl_align.
  pose proof (digits2_pos_upper mx) as Up.
  destruct (ex' - ex) as [|d|d] eqn:D; simpl fst; simpl snd.
  - split; [lia|]. split; [lia|]. right. simpl. lia.
  - split; [lia|]. split; [lia|]. right. simpl. lia.
  - split; [lia|]. split; [lia|]. right.
    rewrite iter_xO.
    assert (Zdigits2 (Zpos mx * 2 ^ Zpos d) <= Zpos (digits2_pos mx) + Zpos d).
    { apply Zdigits2_le; [nia | lia |].
      rewrite Z.pow_add_r by lia.
      pose proof (pow2_pos (Zpos d) ltac:(lia)). nia. }
    lia.
Qed.

(** Converting an integer of at most [K] bits returns. *)
Lemma of_int_bounded (z K : Z) :
  Z.abs z < 2 ^ K -> 0 <= K <= 1022 ->
  exists x,
    Float.of_int z = Ok x /\
    bounded_float (K + 1) (Z.max 0 (K - 52)) x.
Proof.
  intros Hz HK. unfold Float.of_int, binary_normalize.
  assert (R : forall s m, Zpos m < 2 ^ K ->
            exists x,
              match binary_round Float.prec Float.emax s m 0 with
              | S754_infinity _ => Raise OverflowError
              | f => Ok f
              end = Ok x /\
              bounded_float (K + 1) (Z.max 0 (K - 52)) x).
  { intros s m Hm. unfold binary_round.
    pose proof (shl_align_small m 0
                  (SpecFloat.fexp Float.prec Float.emax (Zpos (digits2_pos m) + 0))) as S.
    destruct (shl_align m 0 _) as [mz ez]. simpl fst in S. simpl snd in S.
    assert (D : Zpos (digits2_pos m) <= K)
      by (apply (Zdigits2_le (Zpos m)); lia).
    assert (S' : small K 0 (Zpos mz) ez).
    { destruct S as (S1 & S2 & S3). split; [assumption|]. split; [assumption|].
      destruct S3 as [S3|S3]; [left; assumption | right; lia]. }
    pose proof (binary_round_aux_bounded K 0 s (Zpos mz) ez loc_Exact
                  S' ltac:(lia) ltac:(lia)) as B.
    destruct (binary_round_aux _ _ s (Zpos mz) ez loc_Exact) as [s'|s'| |s' m' e'];
      simpl in B; try contradiction.
    - eexists; split; [reflexivity | exact I].
    - eexists; split; [reflexivity|]. simpl. lia. }
  destruct z as [|m|m].
  - eexists; split; [reflexivity | exact I].
  - apply R. simpl in Hz. exact Hz.
  - apply R. simpl in Hz. exact Hz.
Qed.

Lemma mul_bounded (K1 E1 K2 E2 : Z) (x y : float) :
  bounded_float K1 E1 x -> bounded_float K2 E2 y ->
  K1 + K2 <= 1022 -> E1 + E2 <= 970 ->
  bounded_float (Z.max (K1 + K2) (Z.max (E1 + E2) (-1074)) + 1)
                (Z.max (E1 + E2) (Z.max (K1 + K2 - 52) (-1074)))
                (Float.mul x y).
Proof.
  intros Bx By HK HE.
  destruct x as [sx|sx| |sx mx ex]; unfold bounded_float in Bx;
    try contradiction;
    destruct y as [sy|sy| |sy my ey]; unfold bounded_float in By;
    try contradiction; try exact I.
  unfold Float.mul, SFmul.
  apply binary_round_aux_bounded; [|assumption|assumption].
  split; [lia|]. split; [lia|]. right.
  pose proof (digits2_pos_upper mx). pose proof (digits2_pos_upper my).
  assert (Zdigits2 (Zpos (mx * my))
          <= Zpos (digits2_pos mx) + Zpos (digits2_pos my)).
  { apply Zdigits2_le; [lia | lia |].
    rewrite Pos2Z.inj_mul, Z.pow_add_r by lia. nia. }
  lia.
Qed.

Lemma round_bounded (K E : Z) (x : float) :
  bounded_float K E x -> exists n, Float.round x = Ok n.
Proof.
  destruct x; simpl; try contradiction; intros _; eexists; reflexivity.
Qed.

(** The rounded share of a warehouse is computed for every fleet size
    below [2 ^ 1000] in absolute value. *)
Lemma raw_trucks_total (assigned total_postcodes total_trucks : Z) :
  0 <= assigned <= total_postcodes -> 0 < total_postcodes ->
  Z.abs total_trucks < 2 ^ 1000 ->
  exists n, raw_trucks assigned total_postcodes total_trucks = Ok n.
Proof.
  intros Ha Ht Hf. unfold raw_trucks.
  destruct (int_true_div_bounded assigned total_postcodes 1) as (p & -> & Bp);
    [lia | | lia |].
  { pose proof (Zdigits2_mono (Z.abs assigned) (Z.abs total_postcodes)). lia. }
  destruct (of_int_bounded total_trucks 1000 Hf ltac:(lia)) as (f & Ef & Bf).
  simpl bind. unfold Float.mul_int. rewrite Ef. simpl bind.
  pose proof (mul_bounded _ _ _ _ p f Bp Bf) as Bm.
  destruct (round_bounded _ _ _ (Bm ltac:(lia) ltac:(lia))) as (n & ->).
  eexists. reflexivity.
Qed.

(** A distance below [2 ^ 1000] metres converts to kilometres. *)
Lemma km_total (meters : Z) :
  Z.abs meters < 2 ^ 1000 -> exists km, Float.int_true_div meters 1000 = Ok km.
Proof.
  intros Hm.
  destruct (int_true_div_bounded meters 1000 1022) as (km & Ekm & _);
    [lia | | lia | eauto].
  assert (Zdigits2 (Z.abs meters) <= 1000)
    by (apply Zdigits2_le; lia).
  change (Zdigits2 (Z.abs 1000)) with 10. lia.
Qed.

End FloatFacts.

(** ** Fleet allocation (step 2 of main) *)

Section AllocationFacts.
Import DictFacts.

Lemma sum_int_from (l : list Z) (a : Z) : fold_left Z.add l a = a + sum_int l.
Proof.
  unfold sum_int. revert a. induction l as [|x l IH]; intros a; simpl.
  - lia.
  - rewrite IH, (IH x). lia.
Qed.

Lemma sum_int_cons (x : Z) (l : list Z) : sum_int (x :: l) = x + sum_int l.
Proof. unfold sum_int at 1; simpl. now rewrite sum_int_from. Qed.

Lemma sum_values_setitem {K} `{Hashable K} (d : dict K Z) k old new :
  Dict.get d k = Some old ->
  sum_int (Dict.values (Dict.setitem d k new)) =
  sum_int (Dict.values d) - old + new.
Proof.
  induction d as [|[k' v'] d IH]; simpl; [discriminate|].
  destruct (key_eqb_spec k' k) as [->|N]; simpl.
  - intros [= ->]. rewrite !sum_int_cons. lia.
  - intros G. rewrite !sum_int_cons, IH by assumption. lia.
Qed.

(** [max_from] keeps the first item whose key is maximal: the items seen
    so far are [s1 ++ best :: s2]. *)
Lemma max_from_spec {A} (key : A -> result Z) (f : A -> Z) (l : list A) :
  (forall x, In x l -> key x = Ok (f x)) ->
  forall s1 best s2,
    (forall x, In x s1 -> f x < f best) ->
    (forall x, In x s2 -> f x <= f best) ->
    exists r l1 l2,
      max_from key best (f best) l = Ok r /\
      s1 ++ best :: s2 ++ l = l1 ++ r :: l2 /\
      (forall x, In x l1 -> f x < f r) /\
      (forall x, In x l2 -> f x <= f r).
Proof.
  induction l as [|y l IH]; intros Hkey s1 best s2 H1 H2; simpl.
  - exists best, s1, s2. rewrite app_nil_r. auto.
  - rewrite (Hkey y) by now left. simpl.
    assert (Hkey' : forall x, In x l -> key x = Ok (f x))
      by (intros x I; apply Hkey; now right).
    destruct (Z.ltb_spec (f best) (f y)) as [Lt|Ge].
    + destruct (IH Hkey' (s1 ++ best :: s2) y [])
        as (r & l1 & l2 & Run & Split & Below & Above).
      * intros x I. apply in_app_iff in I. destruct I as [I|[<-|I]].
        -- specialize (H1 x I). lia.
        -- exact Lt.
        -- specialize (H2 x I). lia.
      * intros x [].
      * exists r, l1, l2. split; [exact Run|]. split; [|auto].
        rewrite <- Split, <- app_assoc. reflexivity.
    + destruct (IH Hkey' s1 best (s2 ++ [y]))
        as (r & l1 & l2 & Run & Split & Below & Above).
      * exact H1.
      * intros x I. apply in_app_iff in I. destruct I as [I|[<-|[]]]; auto.
      * exists r, l1, l2. split; [exact Run|]. split; [|auto].
        rewrite <- Split, <- app_assoc. reflexivity.
Qed.

Lemma max_by_spec {A} (key : A -> result Z) (f : A -> Z) (l : list A) :
  l <> [] ->
  (forall x, In x l -> key x = Ok (f x)) ->
  exists r l1 l2,
    max_by key l = Ok r /\
    l = l1 ++ r :: l2 /\
    (forall x, In x l1 -> f x < f r) /\
    (forall x, In x l2 -> f x <= f r).
Proof.
  destruct l as [|x l]; [congruence|]. intros _ Hkey. simpl.
  rewrite (Hkey x) by now left. simpl.
  destruct (max_from_spec key f l (fun y I => Hkey y (or_intror I)) [] x [])
    as (r & l1 & l2 & Run & Split & Below & Above);
    [intros ? [] | intros ? [] |].
  exists r, l1, l2. auto.
Qed.

Variable warehouse_assignments : dict string (list string).
Variables total_postcodes total_trucks : Z.

Local Abbreviation share_computed :=
  (share_computed warehouse_assignments total_postcodes total_trucks).

Lemma allocation_loop_spec (warehouses : list string) :
  (forall w, In w warehouses -> exists n, share_computed w n) ->
  forall d, exists raw,
    allocation_loop warehouse_assignments total_postcodes total_trucks
      warehouses d = Ok raw /\
    (forall w, In w (Dict.keys raw) <-> In w (Dict.keys d) \/ In w warehouses) /\
    (forall w, ~ In w warehouses -> Dict.get raw w = Dict.get d w) /\
    (forall w, In w warehouses ->
               exists n, share_computed w n /\ Dict.get raw w = Some n) /\
    (NoDup (Dict.keys d) -> NoDup (Dict.keys raw)).
Proof.
  induction warehouses as [|w ws IH]; intros Hall d; simpl.
  - exists d. split; [reflexivity|]. repeat split; intros; tauto || auto.
  - destruct (Hall w (or_introl eq_refl)) as (n & assigned & G & R).
    unfold Dict.getitem. rewrite G. simpl. rewrite R. simpl.
    destruct (IH (fun x I => Hall x (or_intror I)) (Dict.setitem d w n))
      as (raw & Run & Keys & Frame & Vals & ND).
    exists raw. split; [exact Run|]. repeat split.
    + rewrite Keys, in_keys_setitem. intuition auto.
    + rewrite Keys, in_keys_setitem. intuition auto.
    + intros x NI. rewrite Frame by tauto.
      apply get_setitem_other. intros ->. tauto.
    + intros x [<-|I]; [|now apply Vals].
      destruct (in_dec string_dec w ws) as [I|NI]; [now apply Vals|].
      exists n. split; [exists assigned; auto|].
      rewrite Frame by assumption. apply get_setitem_same.
    + intros NDd. apply ND. now apply NoDup_keys_setitem.
Qed.

(** The warehouse the remainder goes to: the first one, in input order,
    among those with the most assigned postcodes. *)
Lemma larger_warehouse_spec (warehouses : list string) :
  warehouses <> [] ->
  (forall w, In w warehouses -> exists n, share_computed w n) ->
  exists larger l1 l2,
    larger_warehouse warehouse_assignments warehouses = Ok larger /\
    warehouses = l1 ++ larger :: l2 /\
    (forall w, In w l1 ->
       assigned_count warehouse_assignments w
       < assigned_count warehouse_assignments larger) /\
    (forall w, In w l2 ->
       assigned_count warehouse_assignments w
       <= assigned_count warehouse_assignments larger).
Proof.
  intros NE Hall. unfold larger_warehouse.
  apply max_by_spec; [exact NE|].
  intros w I. destruct (Hall w I) as (n & assigned & G & _).
  unfold assigned_count, Dict.get_default, Dict.getitem. now rewrite G.
Qed.

Lemma allocate_trucks_spec (warehouses : list string) :
  warehouses <> [] ->
  (forall w, In w warehouses -> exists n, share_computed w n) ->
  exists raw tpw larger l1 l2 n,
    allocation_loop warehouse_assignments total_postcodes total_trucks
      warehouses Dict.empty = Ok raw /\
    allocate_trucks warehouse_assignments total_postcodes total_trucks
      warehouses = Ok tpw /\
    (forall w, In w (Dict.keys raw) <-> In w warehouses) /\
    NoDup (Dict.keys raw) /\
    (forall w, In w warehouses ->
       exists m, share_computed w m /\ Dict.get raw w = Some m) /\
    larger_warehouse warehouse_assignments warehouses = Ok larger /\
    warehouses = l1 ++ larger :: l2 /\
    (forall w, In w l1 ->
       assigned_count warehouse_assignments w
       < assigned_count warehouse_assignments larger) /\
    (forall w, In w l2 ->
       assigned_count warehouse_assignments w
       <= assigned_count warehouse_assignments larger) /\
    Dict.get raw larger = Some n /\
    tpw = Dict.setitem raw larger
            (n + (total_trucks - sum_int (Dict.values raw))) /\
    sum_int (Dict.values tpw) = total_trucks.
Proof.
  intros NE Hall.
  destruct (allocation_loop_spec warehouses Hall Dict.empty)
    as (raw & Run & Keys & _ & Vals & ND).
  destruct (larger_warehouse_spec warehouses NE Hall)
    as (larger & l1 & l2 & Max & Split & Below & Above).
  assert (I : In larger warehouses)
    by (rewrite Split; apply in_app_iff; right; now left).
  destruct (Vals larger I) as (n & _ & G).
  assert (Sum : sum_int (Dict.values (Dict.setitem raw larger
                 (n + (total_trucks - sum_int (Dict.values raw)))))
                = total_trucks)
    by (rewrite (sum_values_setitem raw larger n) by exact G; lia).
  exists raw.
  exists (Dict.setitem raw larger
            (n + (total_trucks - sum_int (Dict.values raw)))).
  exists larger, l1, l2, n.
  split; [exact Run|]. split.
  - unfold allocate_trucks. rewrite Run. simpl. unfold adjust_trucks.
    destruct (Z.eqb_spec (total_trucks - sum_int (Dict.values raw)) 0) as [E|N].
    + simpl. f_equal. rewrite E, Z.add_0_r.
      clear - G. induction raw as [|[k v] d IH]; simpl in *; [discriminate|].
      destruct (String.eqb_spec k larger) as [->|N].
      * now injection G as ->.
      * f_equal. auto.
    + rewrite Max. simpl. unfold Dict.getitem. rewrite G. reflexivity.
  - split.
    { intros w. rewrite Keys. simpl. tauto. }
    split; [apply ND; constructor|].
    repeat (split; [assumption|]). split; [reflexivity | exact Sum].
Qed.
End AllocationFacts.

(** ** Warehouse assignment *)

Section AssignFacts.
Import DictFacts.
Variable self : RouteOptimiser.

Lemma value_get_distance origin destination :
  value (get_distance self origin destination) =
  Ok (returned_distance self origin destination).
Proof.
  unfold returned_distance, get_distance.
  destruct (distance_matrix_service self _); reflexivity.
Qed.

Lemma setitem_same {K V} `{Hashable K} (d : dict K V) k v :
  Dict.get d k = Some v -> Dict.setitem d k v = d.
Proof.
  induction d as [|[k' v'] d IH]; simpl; [discriminate|].
  destruct (key_eqb_spec k' k) as [->|N].
  - now intros [= ->].
  - intros G. f_equal. auto.
Qed.

Lemma queried_cons p0 ps w p :
  queried self (p0 :: ps) w p =
  if string_dec p0 p then returned_distance self w p else queried self ps w p.
Proof.
  unfold queried. simpl.
  destruct (string_dec p0 p); [reflexivity|].
  destruct (in_dec string_dec p ps); reflexivity.
Qed.

Lemma queried_Some ps w p d :
  queried self ps w p = Some d -> returned_distance self w p = Some d.
Proof. unfold queried. destruct (in_dec string_dec p ps); congruence. Qed.

Lemma queried_In ps w p :
  In p ps -> queried self ps w p = returned_distance self w p.
Proof.
  unfold queried. destruct (in_dec string_dec p ps); [reflexivity | contradiction].
Qed.

Lemma distances_from_cons w p0 ps wd :
  distances_from self w (p0 :: ps) wd =
  (distance <- get_distance self w p0 ;;
   match distance with
   | Some d =>
       row <- lift (Dict.getitem wd w) ;;
       distances_from self w ps
         (Dict.setitem wd w (Dict.setitem row p0 d))
   | None => distances_from self w ps wd
   end).
Proof. reflexivity. Qed.

Lemma distances_from_spec (w : string) (postcodes : list string) :
  forall wd row,
    Dict.get wd w = Some row ->
    exists wd' row',
      value (distances_from self w postcodes wd) = Ok wd' /\
      Dict.keys wd' = Dict.keys wd /\
      (forall w', w' <> w -> Dict.get wd' w' = Dict.get wd w') /\
      Dict.get wd' w = Some row' /\
      (forall p, Dict.get row' p =
                 match queried self postcodes w p with
                 | Some d => Some d
                 | None => Dict.get row p
                 end).
Proof.
  induction postcodes as [|p0 ps IH]; intros wd row G.
  - exists wd, row. repeat split; auto.
  - rewrite distances_from_cons, value_bind, value_get_distance.
    destruct (returned_distance self w p0) as [d|] eqn:R.
    + rewrite value_bind, value_lift. unfold Dict.getitem. rewrite G.
      destruct (IH (Dict.setitem wd w (Dict.setitem row p0 d))
                   (Dict.setitem row p0 d))
        as (wd' & row' & Run & Keys & Frame & G' & Rows);
        [apply get_setitem_same|].
      exists wd', row'. split; [exact Run|]. split.
      { rewrite Keys. apply keys_setitem_present.
        eapply get_Some_keys; eauto. }
      split.
      { intros w' N. rewrite Frame by assumption.
        apply get_setitem_other. congruence. }
      split; [exact G'|].
      intros p. rewrite Rows, queried_cons.
      destruct (string_dec p0 p) as [<-|N].
      * rewrite R. destruct (queried self ps w p0) as [d'|] eqn:Q;
          [|apply get_setitem_same].
        apply queried_Some in Q. congruence.
      * rewrite get_setitem_other by assumption. reflexivity.
    + destruct (IH wd row G) as (wd' & row' & Run & Keys & Frame & G' & Rows).
      exists wd', row'. repeat (split; [assumption|]).
      intros p. rewrite Rows, queried_cons.
      destruct (string_dec p0 p) as [<-|N]; [|reflexivity].
      rewrite R. destruct (queried self ps w p0) as [d'|] eqn:Q; [|reflexivity].
      apply queried_Some in Q. congruence.
Qed.

Lemma distances_loop_cons w ws postcodes wd :
  distances_loop self (w :: ws) postcodes wd =
  (wd' <- distances_from self w postcodes wd ;;
   distances_loop self ws postcodes wd').
Proof. reflexivity. Qed.

Lemma distances_loop_spec (postcodes warehouses : list string) :
  forall wd,
    (forall w, In w warehouses -> In w (Dict.keys wd)) ->
    exists wd',
      value (distances_loop self warehouses postcodes wd) = Ok wd' /\
      Dict.keys wd' = Dict.keys wd /\
      (forall w, ~ In w warehouses -> Dict.get wd' w = Dict.get wd w) /\
      (forall w row, In w warehouses -> Dict.get wd w = Some row ->
         exists row',
           Dict.get wd' w = Some row' /\
           forall p, Dict.get row' p =
                     match queried self postcodes w p with
                     | Some d => Some d
                     | None => Dict.get row p
                     end).
Proof.
  induction warehouses as [|w ws IH]; intros wd Hkeys.
  - exists wd. repeat split; auto. intros w row [].
  - destruct (keys_get_Some wd w (Hkeys w (or_introl eq_refl))) as (row & G).
    destruct (distances_from_spec w postcodes wd row G)
      as (wd1 & row1 & Run1 & Keys1 & Frame1 & G1 & Rows1).
    rewrite distances_loop_cons, value_bind, Run1.
    destruct (IH wd1) as (wd' & Run & Keys & Frame & Rows).
    { intros x I. rewrite Keys1. apply Hkeys. now right. }
    exists wd'. split; [exact Run|]. split; [congruence|]. split.
    { intros x NI. rewrite Frame by (intros I; apply NI; now right).
      apply Frame1. intros ->. apply NI. now left. }
    intros x rowx Ix Gx.
    destruct (in_dec string_dec x ws) as [I|NI].
    + destruct (string_dec x w) as [->|N].
      * assert (rowx = row) by congruence. subst rowx.
        destruct (Rows w row1 I G1) as (row' & G' & R').
        exists row'. split; [exact G'|].
        intros p. rewrite R', Rows1.
        destruct (queried self postcodes w p); reflexivity.
      * apply (Rows x rowx I). rewrite Frame1; assumption.
    + destruct Ix as [<-|Ix]; [|contradiction].
      assert (rowx = row) by congruence. subst rowx.
      exists row1. split; [|exact Rows1].
      rewrite Frame by assumption. exact G1.
Qed.

Lemma in_keys_comprehension {V} (f : string -> V) (ks : list string) k :
  In k (Dict.keys (Dict.comprehension f ks)) <-> In k ks.
Proof.
  split.
  - intros I. apply keys_get_Some in I. destruct I as (v & G).
    rewrite get_comprehension in G.
    destruct (in_dec _ k ks); [assumption | discriminate].
  - intros I. eapply get_Some_keys. rewrite get_comprehension.
    destruct (in_dec _ k ks); [reflexivity | contradiction].
Qed.

Lemma get_comprehension_In {V} (f : string -> V) (ks : list string) k :
  In k ks -> Dict.get (Dict.comprehension f ks) k = Some (f k).
Proof.
  intros I. rewrite get_comprehension.
  destruct (in_dec _ k ks); [reflexivity | contradiction].
Qed.

(** The matrix holds exactly the distances that were returned. *)
Lemma calculate_warehouse_distances_spec (warehouses postcodes : list string) :
  exists wd,
    value (calculate_warehouse_distances self warehouses postcodes) = Ok wd /\
    forall w, In w warehouses ->
      exists row,
        Dict.get wd w = Some row /\
        forall p, Dict.get row p = queried self postcodes w p.
Proof.
  unfold calculate_warehouse_distances.
  destruct (distances_loop_spec postcodes warehouses
              (Dict.comprehension (fun _ => Dict.empty) warehouses))
    as (wd & Run & Keys & Frame & Rows).
  { intros w I. now apply in_keys_comprehension. }
  exists wd. split; [exact Run|].
  intros w I.
  destruct (Rows w Dict.empty I (get_comprehension_In _ _ _ I))
    as (row & G & R).
  exists row. split; [exact G|].
  intros p. rewrite R. destruct (queried self postcodes w p); reflexivity.
Qed.
End AssignFacts.

Section NearestFacts.
Import DictFacts.
Variable self : RouteOptimiser.
Variable wd : dict string (dict string Z).
Variable postcode : string.

Local Abbreviation row_ok := (row_ok self wd postcode).

Lemma nearest_loop_cons w rest min_distance nearest :
  nearest_loop wd postcode (w :: rest) min_distance nearest =
  (row <- Dict.getitem wd w ;;
   if Dict.contains row postcode then
     distance <- Dict.getitem row postcode ;;
     if below distance min_distance
     then nearest_loop wd postcode rest (Finite distance) (Some w)
     else nearest_loop wd postcode rest min_distance nearest
   else nearest_loop wd postcode rest min_distance nearest).
Proof. reflexivity. Qed.

Lemma nearest_loop_step w rest min_distance nearest :
  row_ok w ->
  nearest_loop wd postcode (w :: rest) min_distance nearest =
  match returned_distance self w postcode with
  | Some d =>
      if below d min_distance
      then nearest_loop wd postcode rest (Finite d) (Some w)
      else nearest_loop wd postcode rest min_distance nearest
  | None => nearest_loop wd postcode rest min_distance nearest
  end.
Proof.
  intros (row & G & R). rewrite nearest_loop_cons.
  unfold Dict.getitem, Dict.contains. rewrite G. simpl. rewrite R.
  destruct (returned_distance self w postcode); reflexivity.
Qed.

Lemma nearest_loop_spec (warehouses : list string) :
  (forall w, In w warehouses -> row_ok w) ->
  forall seen min_distance nearest,
    scanned self postcode seen min_distance nearest ->
    exists min_distance' nearest',
      nearest_loop wd postcode warehouses min_distance nearest
      = Ok (min_distance', nearest') /\
      scanned self postcode (seen ++ warehouses) min_distance' nearest'.
Proof.
  induction warehouses as [|w ws IH]; intros Hrows seen m nearest Inv.
  - exists m, nearest. rewrite app_nil_r. auto.
  - rewrite nearest_loop_step by (apply Hrows; now left).
    assert (Hrows' : forall x, In x ws -> row_ok x)
      by (intros x I; apply Hrows; now right).
    replace (seen ++ w :: ws) with ((seen ++ [w]) ++ ws)
      by (rewrite <- app_assoc; reflexivity).
    destruct (returned_distance self w postcode) as [d|] eqn:R.
    + destruct Inv as [(-> & -> & Nothing) | (w1 & d1 & -> & -> & First & R1)].
      * (* the first distance seen *)
        simpl. apply IH; [exact Hrows'|]. right.
        exists w, d. repeat split; auto.
        exists d, seen, []. repeat split; auto.
        -- intros w' d' I R'. rewrite Nothing in R' by assumption. discriminate.
        -- intros w' d' [].
      * simpl. destruct (Z.ltb_spec d d1) as [Lt|Ge].
        -- (* strictly nearer: [w] replaces [w1] *)
           apply IH; [exact Hrows'|]. right.
           exists w, d. repeat split; auto.
           destruct First as (d1' & l1 & l2 & Split & R1' & Below & Above).
           assert (d1' = d1) by congruence. subst d1'.
           exists d, seen, []. repeat split; auto.
           ++ intros w' d' I R'. rewrite Split in I.
              apply in_app_iff in I. destruct I as [I|[<-|I]].
              ** specialize (Below w' d' I R'). lia.
              ** assert (d' = d1) by congruence. lia.
              ** specialize (Above w' d' I R'). lia.
           ++ intros w' d' [].
        -- (* not nearer: [w1] stays *)
           apply IH; [exact Hrows'|]. right.
           exists w1, d1. repeat split; auto.
           destruct First as (d1' & l1 & l2 & Split & R1' & Below & Above).
           assert (d1' = d1) by congruence. subst d1'.
           exists d1, l1, (l2 ++ [w]). repeat split; auto.
           ++ rewrite Split, <- app_assoc. reflexivity.
           ++ intros w' d' I R'. apply in_app_iff in I.
              destruct I as [I|[<-|[]]]; [eauto|].
              assert (d' = d) by congruence. lia.
    + apply IH; [exact Hrows'|].
      destruct Inv as [(-> & -> & Nothing) | (w1 & d1 & -> & -> & First & R1)].
      * left. repeat split; auto.
        intros x I. apply in_app_iff in I. destruct I as [I|[<-|[]]]; auto.
      * right. exists w1, d1. repeat split; auto.
        destruct First as (d1' & l1 & l2 & Split & R1' & Below & Above).
        exists d1', l1, (l2 ++ [w]). repeat split; auto.
        -- rewrite Split, <- app_assoc. reflexivity.
        -- intros w' d' I R'. apply in_app_iff in I.
           destruct I as [I|[<-|[]]]; [eauto|]. congruence.
Qed.

Lemma split_compare {A} (l1 l2 l1' l2' : list A) (a b : A) :
  l1 ++ a :: l2 = l1' ++ b :: l2' ->
  (l1 = l1' /\ a = b /\ l2 = l2') \/
  (In a l1' /\ In b l2) \/
  (In b l1 /\ In a l2').
Proof.
  revert l1'. induction l1 as [|x l1 IH]; intros [|x' l1'] E; simpl in E.
  - injection E as -> ->. auto.
  - injection E as -> ->. right. left. split; [now left|].
    apply in_app_iff. right. now left.
  - injection E as -> <-. right. right. split; [now left|].
    apply in_app_iff. right. now left.
  - injection E as -> E. destruct (IH l1' E) as [(-> & -> & ->)|[[Ia Ib]|[Ib Ia]]].
    + auto.
    + right. left. split; [now right | assumption].
    + right. right. split; [now right | assumption].
Qed.

Lemma first_nearest_unique warehouses w w' :
  first_nearest self warehouses postcode w ->
  first_nearest self warehouses postcode w' -> w = w'.
Proof.
  intros (d & l1 & l2 & Split & R & Below & Above)
         (d' & l1' & l2' & Split' & R' & Below' & Above').
  rewrite Split in Split'.
  destruct (split_compare _ _ _ _ _ _ Split')
    as [(_ & E & _)|[[Iw Iw']|[Iw' Iw]]]; [exact E| |].
  - specialize (Below' w d Iw R). specialize (Above w' d' Iw' R'). lia.
  - specialize (Below w' d' Iw' R'). specialize (Above' w d Iw R). lia.
Qed.

(** Where one postcode goes. *)
Lemma target_warehouse_spec (w0 : string) (rest : list string) :
  (forall w, In w (w0 :: rest) -> row_ok w) ->
  ((forall w, In w (w0 :: rest) -> returned_distance self w postcode = None)
   /\ target_warehouse wd (w0 :: rest) postcode = Ok w0)
  \/
  (exists w, first_nearest self (w0 :: rest) postcode w /\
             target_warehouse wd (w0 :: rest) postcode
             = Ok (if str_truthy w then w else w0)).
Proof.
  intros Hrows.
  destruct (nearest_loop_spec (w0 :: rest) Hrows [] Infinity None)
    as (m & nearest & Run & Inv).
  { left. repeat split. intros w []. }
  unfold target_warehouse. rewrite Run. simpl app in Inv.
  destruct Inv as [(-> & -> & Nothing) | (w & d & -> & -> & First & R)].
  - left. split; [exact Nothing | reflexivity].
  - right. exists w. split; [exact First|].
    simpl. destruct (str_truthy w); reflexivity.
Qed.

Lemma target_warehouse_in (w0 : string) (rest : list string) :
  (forall w, In w (w0 :: rest) -> row_ok w) ->
  exists w, target_warehouse wd (w0 :: rest) postcode = Ok w /\
            In w (w0 :: rest).
Proof.
  intros Hrows.
  destruct (target_warehouse_spec w0 rest Hrows) as [[_ T]|(w & First & T)].
  - exists w0. split; [exact T | now left].
  - rewrite T. destruct (str_truthy w); eexists; split; try reflexivity.
    + destruct First as (d & l1 & l2 & Split & _). rewrite Split.
      apply in_app_iff. right. now left.
    + now left.
Qed.
End NearestFacts.

Section AssignLoopFacts.
Import DictFacts.
Variable self : RouteOptimiser.
Variable wd : dict string (dict string Z).
Variable warehouses : list string.

Local Abbreviation target := (target_warehouse wd warehouses).

Lemma assign_loop_cons p rest wa :
  assign_loop wd warehouses (p :: rest) wa =
  (w <- target p ;;
   wa' <- append_at wa w p ;;
   assign_loop wd warehouses rest wa').
Proof.
  unfold target_warehouse. simpl.
  destruct (nearest_loop wd p warehouses Infinity None); reflexivity.
Qed.

Lemma assign_loop_spec (postcodes : list string) :
  (forall p, In p postcodes -> exists w, target p = Ok w /\ In w warehouses) ->
  forall wa,
    (forall w, In w warehouses -> In w (Dict.keys wa)) ->
    exists wa',
      assign_loop wd warehouses postcodes wa = Ok wa' /\
      Dict.keys wa' = Dict.keys wa /\
      Permutation (concat (Dict.values wa'))
                  (concat (Dict.values wa) ++ postcodes) /\
      (forall w l, Dict.get wa w = Some l ->
         exists l', Dict.get wa' w = Some l' /\
                    forall q, In q l' <->
                              In q l \/ (In q postcodes /\ target q = Ok w)).
Proof.
  induction postcodes as [|p rest IH]; intros Htarget wa Hkeys.
  - exists wa. split; [reflexivity|]. split; [reflexivity|]. split.
    + now rewrite app_nil_r.
    + intros w l G. exists l. split; [exact G|]. intros q. simpl. tauto.
  - destruct (Htarget p (or_introl eq_refl)) as (w0 & T & I0).
    destruct (keys_get_Some wa w0 (Hkeys w0 I0)) as (l0 & G0).
    rewrite assign_loop_cons, T. simpl.
    unfold append_at, Dict.getitem. rewrite G0. simpl.
    destruct (IH (fun q I => Htarget q (or_intror I))
                 (Dict.setitem wa w0 (l0 ++ [p])))
      as (wa' & Run & Keys & Perm & Lists).
    { intros w I. apply in_keys_setitem. right. auto. }
    exists wa'. split; [exact Run|]. split.
    { rewrite Keys. apply keys_setitem_present. auto. }
    split.
    { rewrite Perm.
      pose proof (concat_values_append wa w0 p) as P.
      unfold defaultdict_append, Dict.get_default in P. rewrite G0 in P.
      rewrite P. simpl. apply Permutation_middle. }
    intros w l G.
    destruct (string_dec w0 w) as [<-|N].
    + assert (l = l0) by congruence. subst l.
      destruct (Lists w0 (l0 ++ [p]) (get_setitem_same _ _ _))
        as (l' & G' & In').
      exists l'. split; [exact G'|].
      intros q. rewrite In', in_app_iff. simpl.
      split.
      * intros [[I|[<-|[]]]|[I Tq]]; auto.
      * intros [I|[[<-|I] Tq]]; auto.
    + destruct (Lists w l) as (l' & G' & In').
      { rewrite get_setitem_other; assumption. }
      exists l'. split; [exact G'|].
      intros q. rewrite In'. simpl.
      split.
      * intros [I|[I Tq]]; auto.
      * intros [I|[[<-|I] Tq]]; auto. congruence.
Qed.
End AssignLoopFacts.

Section AssignmentFacts.
Import DictFacts.
Variable self : RouteOptimiser.

(** What [assign_postcodes_to_warehouses] returns, in terms of the
    distance matrix it built. *)
Lemma assign_postcodes_to_warehouses_spec (w0 : string) (rest postcodes : list string) :
  exists wd wa,
    value (calculate_warehouse_distances self (w0 :: rest) postcodes) = Ok wd /\
    value (assign_postcodes_to_warehouses self (w0 :: rest) postcodes) = Ok wa /\
    (forall p w, In p postcodes -> In w (w0 :: rest) -> row_ok self wd p w) /\
    NoDup (Dict.keys wa) /\
    (forall w, In w (Dict.keys wa) <-> In w (w0 :: rest)) /\
    Permutation (concat (Dict.values wa)) postcodes /\
    (forall w, In w (w0 :: rest) ->
       exists l, Dict.get wa w = Some l /\
                 forall q, In q l <->
                           In q postcodes /\
                           target_warehouse wd (w0 :: rest) q = Ok w).
Proof.
  destruct (calculate_warehouse_distances_spec self (w0 :: rest) postcodes)
    as (wd & Calc & Rows).
  assert (Hrows : forall p w, In p postcodes -> In w (w0 :: rest) ->
                              row_ok self wd p w).
  { intros p w Ip Iw. destruct (Rows w Iw) as (row & G & R).
    exists row. split; [exact G|]. rewrite R. now apply queried_In. }
  destruct (assign_loop_spec wd (w0 :: rest) postcodes) with
    (wa := Dict.comprehension (fun _ : string => @nil string) (w0 :: rest))
    as (wa & Run & Keys & Perm & Lists).
  { intros p Ip. apply (target_warehouse_in self). intros w Iw. now apply Hrows. }
  { intros w I. now apply in_keys_comprehension. }
  exists wd, wa. split; [exact Calc|]. split.
  { unfold assign_postcodes_to_warehouses.
    rewrite value_bind, Calc, value_lift. exact Run. }
  split; [exact Hrows|]. split.
  { rewrite Keys. apply NoDup_keys_comprehension. }
  split.
  { intros w. rewrite Keys. apply in_keys_comprehension. }
  split.
  { rewrite Perm.
    replace (concat (Dict.values (Dict.comprehension
               (fun _ : string => @nil string) (w0 :: rest)))) with (@nil string);
      [reflexivity|].
    symmetry. apply concat_nil_Forall. apply Forall_forall.
    intros l I. apply in_map_iff in I. destruct I as ((k & v) & <- & I).
    apply In_get_Some in I; [|apply NoDup_keys_comprehension].
    rewrite get_comprehension in I. simpl.
    destruct (in_dec _ k (w0 :: rest)); congruence. }
  intros w I.
  destruct (Lists w [] (get_comprehension_In _ _ _ I)) as (l & G & In').
  exists l. split; [exact G|].
  intros q. rewrite In'. simpl. tauto.
Qed.

(** Every postcode ends in the list of its target warehouse only. *)
Lemma assigned_to_target (w0 : string) (rest postcodes : list string) :
  exists wd wa,
    value (assign_postcodes_to_warehouses self (w0 :: rest) postcodes) = Ok wa /\
    (forall p w, In p postcodes -> In w (w0 :: rest) -> row_ok self wd p w) /\
    (forall w, In w (Dict.keys wa) <-> In w (w0 :: rest)) /\
    (forall p w, In p postcodes ->
       target_warehouse wd (w0 :: rest) p = Ok w -> only_at wa p w) /\
    (forall p w l, Dict.get wa w = Some l -> In p l ->
       In p postcodes /\ target_warehouse wd (w0 :: rest) p = Ok w).
Proof.
  destruct (assign_postcodes_to_warehouses_spec w0 rest postcodes)
    as (wd & wa & _ & Run & Hrows & ND & Keys & Perm & Lists).
  assert (Back : forall p w l, Dict.get wa w = Some l -> In p l ->
                   In p postcodes /\ target_warehouse wd (w0 :: rest) p = Ok w).
  { intros p w l G I.
    assert (Iw : In w (w0 :: rest)) by (apply Keys; eapply get_Some_keys; eauto).
    destruct (Lists w Iw) as (l' & G' & Members).
    assert (l' = l) by congruence. subst l'. now apply Members. }
  exists wd, wa. repeat (split; [assumption|]). split; [|exact Back].
  intros p w Ip T.
  destruct (target_warehouse_in self wd p w0 rest) as (w1 & T1 & Iw).
  { intros x Ix. now apply Hrows. }
  assert (w1 = w) by congruence. subst w1.
  destruct (Lists w Iw) as (l & G & Members).
  exists l. split; [exact G|]. split; [apply Members; auto|].
  intros w' l' G' Ip'. destruct (Back p w' l' G' Ip') as [_ T']. congruence.
Qed.
End AssignmentFacts.

(** ** Route aggregation *)

Section RouteFacts.
Import DictFacts.
Variable self : RouteOptimiser.

Lemma value_get_optimised_route waypoints :
  exists legs, value (get_optimised_route self waypoints) = Ok legs.
Proof.
  unfold get_optimised_route. destruct waypoints as [|origin rest].
  - now exists [].
  - destruct (directions_service self _); eexists; reflexivity.
Qed.

Lemma value_closed_route warehouse stops :
  value (get_optimised_route self ([warehouse] ++ stops ++ [warehouse]))
  = Ok (route_legs self warehouse stops).
Proof.
  unfold route_legs.
  destruct (value_get_optimised_route ([warehouse] ++ stops ++ [warehouse]))
    as (legs & ->).
  reflexivity.
Qed.

Lemma setitem_absent {K V} `{Hashable K} (d : dict K V) k v :
  ~ In k (Dict.keys d) -> Dict.setitem d k v = d ++ [(k, v)].
Proof.
  induction d as [|[k' v'] d IH]; simpl; [reflexivity|].
  intros NI. destruct (key_eqb_spec k' k) as [->|N]; [tauto|].
  f_equal. apply IH. tauto.
Qed.

Lemma routes_loop_cons truck_id stop stops rest warehouse truck_routes :
  routes_loop self ((truck_id, stop :: stops) :: rest) warehouse truck_routes =
  (route_info <-
     get_optimised_route self ([warehouse] ++ (stop :: stops) ++ [warehouse]) ;;
   km <- lift (Float.int_true_div
                 match route_info with
                 | [] => 0
                 | _ :: _ => sum_int (map distance route_info)
                 end 1000) ;;
   routes_loop self rest warehouse
     (Dict.setitem truck_routes truck_id
        {| route := map end_address route_info; total_distance := km |})).
Proof. reflexivity. Qed.

Lemma legs_total (route_info : list leg) :
  match route_info with
  | [] => 0
  | _ :: _ => sum_int (map distance route_info)
  end = sum_int (map distance route_info).
Proof. destruct route_info; reflexivity. Qed.

(** The entries the loop adds, in the order of the vehicles with stops. *)
Lemma routes_loop_spec (warehouse : string) (items : list (Z * list string)) :
  NoDup (map fst items) ->
  forall truck_routes,
    (forall id, In id (map fst items) -> ~ In id (Dict.keys truck_routes)) ->
    forall result,
      value (routes_loop self items warehouse truck_routes) = Ok result ->
      exists entries,
        result = truck_routes ++ entries /\
        Forall2 (fun item entry =>
                   fst entry = fst item /\
                   route_of self warehouse (snd item) = Ok (snd entry))
                (filter has_stops items) entries.
Proof.
  induction items as [|[id stops] rest IH]; intros ND routes Fresh result Run.
  - injection Run as <-. exists []. rewrite app_nil_r. split; constructor.
  - inversion ND as [|? ? NI ND']; subst.
    assert (Fresh' : forall d : dict Z truck_route,
              (forall id', In id' (map fst ((id, stops) :: rest)) ->
                           ~ In id' (Dict.keys d)) ->
              forall id', In id' (map fst rest) -> ~ In id' (Dict.keys d))
      by (intros d F id' I; apply F; now right).
    destruct stops as [|stop stops].
    + apply (IH ND' routes (Fresh' _ Fresh) result Run).
    + rewrite routes_loop_cons, value_bind, value_closed_route in Run.
      rewrite value_bind, value_lift, legs_total in Run.
      destruct (Float.int_true_div _ 1000) as [km|e] eqn:Div; [|discriminate].
      rewrite setitem_absent in Run by (apply Fresh; now left).
      apply IH in Run; [|exact ND'|].
      * destruct Run as (entries & -> & All).
        exists ((id, {| route := map end_address
                                    (route_legs self warehouse (stop :: stops));
                         total_distance := km |}) :: entries).
        split; [now rewrite <- app_assoc|].
        simpl. constructor; [|exact All].
        split; [reflexivity|]. unfold route_of. simpl snd. rewrite Div.
        reflexivity.
      * intros id' I. unfold Dict.keys. rewrite map_app, in_app_iff. simpl.
        intros [I'|[<-|[]]].
        -- apply (Fresh id'); [now right | exact I'].
        -- contradiction.
Qed.

Lemma routes_loop_total (warehouse : string) (items : list (Z * list string)) :
  (forall item, In item items -> has_stops item = true ->
     exists r, route_of self warehouse (snd item) = Ok r) ->
  forall truck_routes,
    exists result, value (routes_loop self items warehouse truck_routes) = Ok result.
Proof.
  induction items as [|[id stops] rest IH]; intros Hall routes.
  - now exists routes.
  - assert (Hall' : forall item, In item rest -> has_stops item = true ->
                      exists r, route_of self warehouse (snd item) = Ok r)
      by (intros item I; apply Hall; now right).
    destruct stops as [|stop stops].
    + apply (IH Hall').
    + rewrite routes_loop_cons, value_bind, value_closed_route.
      rewrite value_bind, value_lift, legs_total.
      destruct (Hall (id, stop :: stops) (or_introl eq_refl) eq_refl) as (r & R).
      unfold route_of in R. simpl snd in R.
      destruct (Float.int_true_div _ 1000) as [km|e]; [|discriminate].
      apply (IH Hall').
Qed.
End RouteFacts.

Section ReportFacts.
Import DictFacts.

Lemma trucks_loop_spec (items : list (Z * truck_route)) :
  forall warehouse_total grand_total global_truck_id,
    let '(printed, wt, gt, gid) :=
      trucks_loop items warehouse_total grand_total global_truck_id in
    map (fun tr => {| route := truck_stops tr;
                      total_distance := truck_distance tr |}) printed
    = map snd items /\
    wt = fold_left Float.add (map truck_distance printed) warehouse_total /\
    gt = fold_left Float.add (map truck_distance printed) grand_total /\
    gid = global_truck_id + len items.
Proof.
  induction items as [|[id [stops km]] rest IH]; intros wt gt gid; simpl.
  - repeat split. unfold len; simpl. lia.
  - specialize (IH (Float.add wt km) (Float.add gt km) (gid + 1)).
    destruct (trucks_loop rest _ _ _) as [[[printed wt'] gt'] gid'].
    destruct IH as (Entries & Wt & Gt & Gid). simpl.
    repeat split; [now rewrite Entries | assumption | assumption |].
    unfold len in *; simpl length. lia.
Qed.

Variable self : RouteOptimiser.
Variable warehouse_alias : dict string string.
Variable warehouse_assignments : dict string (list string).
Variable trucks_per_warehouse : dict string Z.

Lemma warehouses_loop_cons warehouse rest grand_total global_truck_id :
  warehouses_loop self warehouse_alias warehouse_assignments
    trucks_per_warehouse (warehouse :: rest) grand_total global_truck_id =
  (assigned_postcodes <- lift (Dict.getitem warehouse_assignments warehouse) ;;
   num_trucks <- lift (Dict.getitem trucks_per_warehouse warehouse) ;;
   match assigned_postcodes with
   | [] => warehouses_loop self warehouse_alias warehouse_assignments
             trucks_per_warehouse rest grand_total global_truck_id
   | _ :: _ =>
       trucks <-
         lift (divide_postcodes_among_trucks assigned_postcodes num_trucks) ;;
       truck_routes <- optimise_routes_for_trucks self trucks warehouse ;;
       let '(printed, wt, gt, gid) :=
         trucks_loop (Dict.items truck_routes) Float.zero grand_total
           global_truck_id in
       more <- warehouses_loop self warehouse_alias warehouse_assignments
                 trucks_per_warehouse rest gt gid ;;
       ret ({| reported_warehouse := warehouse;
               warehouse_label :=
                 Dict.get_default warehouse_alias warehouse warehouse;
               assigned_trucks := num_trucks;
               truck_reports := printed;
               warehouse_total_distance := wt |} :: fst more, snd more)
   end).
Proof. reflexivity. Qed.

Local Abbreviation warehouse_reported :=
  (warehouse_reported self warehouse_assignments trucks_per_warehouse).

Lemma divide_keys_NoDup postcodes num_trucks trucks :
  divide_postcodes_among_trucks postcodes num_trucks = Ok trucks ->
  NoDup (Dict.keys trucks).
Proof.
  unfold divide_postcodes_among_trucks. intros Run.
  destruct (Z.eq_dec num_trucks 0) as [->|N].
  - destruct postcodes; simpl in Run; [|discriminate].
    injection Run as <-. constructor.
  - destruct (divide_loop_spec (enumerate postcodes) num_trucks N Dict.empty)
      as (d' & Run' & _ & ND & _).
    assert (d' = trucks) by congruence. subst d'. apply ND. constructor.
Qed.

Lemma warehouses_loop_spec (warehouses : list string) :
  forall grand_total global_truck_id reports grand_total',
    value (warehouses_loop self warehouse_alias warehouse_assignments
             trucks_per_warehouse warehouses grand_total global_truck_id)
    = Ok (reports, grand_total') ->
    Forall warehouse_reported reports /\
    grand_total' =
    fold_left Float.add (concat (map reported_distances reports)) grand_total.
Proof.
  induction warehouses as [|w ws IH]; intros g gid reports g' Run.
  - injection Run as <- <-. split; constructor.
  - rewrite warehouses_loop_cons, value_bind, value_lift in Run.
    unfold Dict.getitem in Run.
    destruct (Dict.get warehouse_assignments w) as [assigned|] eqn:Ga;
      [|discriminate].
    rewrite value_bind, value_lift in Run.
    destruct (Dict.get trucks_per_warehouse w) as [n|] eqn:Gn; [|discriminate].
    destruct assigned as [|pc assigned]; [now apply IH in Run|].
    rewrite value_bind, value_lift in Run.
    destruct (divide_postcodes_among_trucks (pc :: assigned) n)
      as [trucks|e] eqn:Div; [|discriminate].
    rewrite value_bind in Run.
    destruct (value (optimise_routes_for_trucks self trucks w))
      as [routes|e] eqn:Opt; [|discriminate].
    pose proof (trucks_loop_spec (Dict.items routes) Float.zero g gid) as TL.
    destruct (trucks_loop (Dict.items routes) Float.zero g gid)
      as [[[printed wt] gt] gid'].
    destruct TL as (Entries & Wt & Gt & _).
    rewrite value_bind in Run.
    destruct (value (warehouses_loop self warehouse_alias warehouse_assignments
                       trucks_per_warehouse ws gt gid'))
      as [[more g'']|e] eqn:Rest; [|discriminate].
    injection Run as <- <-.
    apply IH in Rest. destruct Rest as (All & G). split.
    + constructor; [|exact All]. split.
      * exists (pc :: assigned), trucks. simpl.
        repeat (split; [assumption|]).
        unfold optimise_routes_for_trucks in Opt.
        apply routes_loop_spec in Opt;
          [|eapply divide_keys_NoDup; eauto | intros id _ []].
        destruct Opt as (entries & -> & F2). simpl app in Entries.
        clear - Entries F2. revert printed Entries.
        induction F2 as [|item [id r] items entries [_ R] F2 IHF];
          intros [|tr printed] Entries; try discriminate; constructor.
        -- injection Entries as E _. unfold vehicle_reported.
           simpl snd in *. now rewrite E.
        -- apply IHF. now injection Entries.
      * exact Wt.
    + simpl. unfold reported_distances at 1. simpl truck_reports.
      rewrite fold_left_app, <- Gt. exact G.
Qed.
(** The printed warehouses are the warehouses with postcodes, in the order
    of the input. *)
Lemma warehouses_loop_names (warehouses : list string) :
  forall grand_total global_truck_id reports grand_total',
    value (warehouses_loop self warehouse_alias warehouse_assignments
             trucks_per_warehouse warehouses grand_total global_truck_id)
    = Ok (reports, grand_total') ->
    map reported_warehouse reports
    = filter (has_postcodes warehouse_assignments) warehouses.
Proof.
  induction warehouses as [|w ws IH]; intros g gid reports g' Run.
  - injection Run as <- <-. reflexivity.
  - rewrite warehouses_loop_cons, value_bind, value_lift in Run.
    unfold Dict.getitem in Run. cbn [filter]. unfold has_postcodes at 1.
    destruct (Dict.get warehouse_assignments w) as [assigned|] eqn:Ga;
      [|discriminate].
    rewrite value_bind, value_lift in Run.
    destruct (Dict.get trucks_per_warehouse w) as [n|] eqn:Gn; [|discriminate].
    destruct assigned as [|pc assigned]; [now apply IH in Run|].
    rewrite value_bind, value_lift in Run.
    destruct (divide_postcodes_among_trucks (pc :: assigned) n)
      as [trucks|e] eqn:Div; [|discriminate].
    rewrite value_bind in Run.
    destruct (value (optimise_routes_for_trucks self trucks w))
      as [routes|e] eqn:Opt; [|discriminate].
    destruct (trucks_loop (Dict.items routes) Float.zero g gid)
      as [[[printed wt] gt] gid'].
    rewrite value_bind in Run.
    destruct (value (warehouses_loop self warehouse_alias warehouse_assignments
                       trucks_per_warehouse ws gt gid'))
      as [[more g'']|e] eqn:Rest; [|discriminate].
    injection Run as <- <-. apply IH in Rest. simpl. now rewrite Rest.
Qed.
End ReportFacts.

(** ** Further facts *)

(** Where a postcode with a nearest warehouse goes: to that warehouse when
    its name is not the empty string, to the first warehouse otherwise. *)
Lemma nearest_assignment
    (self : RouteOptimiser) (w0 : string) (rest postcodes : list string)
    (p w : string) :
  In p postcodes ->
  first_nearest self (w0 :: rest) p w ->
  exists wa,
    value (assign_postcodes_to_warehouses self (w0 :: rest) postcodes) = Ok wa /\
    only_at wa p (if str_truthy w then w else w0).
Proof.
  intros Ip First.
  destruct (assigned_to_target self w0 rest postcodes)
    as (wd & wa & Run & Hrows & _ & Where & _).
  exists wa. split; [exact Run|]. apply Where; [exact Ip|].
  destruct (target_warehouse_spec self wd p w0 rest)
    as [[Nothing _]|(w1 & First1 & T)].
  - intros x Ix. now apply Hrows.
  - destruct First as (d & l1 & l2 & Split & R & _).
    rewrite Nothing in R; [discriminate|].
    rewrite Split. apply in_app_iff. right. now left.
  - now rewrite (first_nearest_unique self p _ _ _ First First1).
Qed.

Lemma raw_trucks_4_6_10 : raw_trucks 4 6 10 = Ok 7.
Proof. vm_compute. reflexivity. Qed.

Lemma raw_trucks_2_6_10 : raw_trucks 2 6 10 = Ok 3.
Proof. vm_compute. reflexivity. Qed.

Lemma raw_trucks_4_6_9 : raw_trucks 4 6 9 = Ok 6.
Proof. vm_compute. reflexivity. Qed.

Lemma raw_trucks_2_6_9 : raw_trucks 2 6 9 = Ok 3.
Proof. vm_compute. reflexivity. Qed.

Lemma round_of_zero_share (total_postcodes total_trucks n : Z) :
  raw_trucks 0 total_postcodes total_trucks = Ok n -> n = 1.
Proof.
  unfold raw_trucks, Float.int_true_div.
  destruct (total_postcodes =? 0); [discriminate|].
  change (0 =? 0) with true. cbv iota. simpl bind.
  unfold Float.mul_int. destruct (Float.of_int total_trucks) as [f|e]; simpl;
    [|discriminate].
  destruct f as [s| s | |s m e]; simpl; try discriminate; now intros [= <-].
Qed.

Lemma add_zero_r (x : float) :
  x <> S754_zero true -> Float.add x Float.zero = x.
Proof. destruct x as [[|]| | |]; simpl; congruence. Qed.

Lemma route_of_no_legs (self : RouteOptimiser) (warehouse : string)
    (stops : list string) :
  route_legs self warehouse stops = [] ->
  route_of self warehouse stops
  = Ok {| route := []; total_distance := Float.zero |}.
Proof. unfold route_of. now intros ->. Qed.

(** With at least one postcode in total, no warehouse holding more than
    the total, and a fleet size below [2 ^ 1000] in absolute value, every
    share is computed. *)
Lemma shares_are_computed
    (warehouse_assignments : dict string (list string))
    (total_postcodes total_trucks : Z) (warehouses : list string) :
  0 < total_postcodes ->
  Z.abs total_trucks < 2 ^ 1000 ->
  (forall w, In w warehouses ->
     exists assigned,
       Dict.get warehouse_assignments w = Some assigned /\
       len assigned <= total_postcodes) ->
  forall w, In w warehouses ->
    exists n, share_computed warehouse_assignments total_postcodes
                total_trucks w n.
Proof.
  intros HT HF Hall w I. destruct (Hall w I) as (assigned & G & L).
  destruct (raw_trucks_total (len assigned) total_postcodes total_trucks)
    as (n & R); [unfold len in *; lia | assumption | assumption |].
  exists n, assigned. auto.
Qed.

(** Routes whose leg distances add up to less than [2 ^ 1000] metres have an
    entry. *)
Lemma route_of_total (self : RouteOptimiser) (warehouse : string)
    (stops : list string) :
  Z.abs (sum_int (map distance (route_legs self warehouse stops))) < 2 ^ 1000 ->
  exists r, route_of self warehouse stops = Ok r.
Proof.
  intros H. unfold route_of. destruct (km_total _ H) as (km & ->).
  eexists. reflexivity.
Qed.

(** * The properties of the specification *)

(** C1.  For a non-empty list of warehouses, [assign_postcodes_to_warehouses]
    returns an assignment whose keys are the warehouses, each once; the
    assigned lists together are a rearrangement of the input postcodes
    (nothing omitted, nothing added, multiplicities kept, so no postcode is
    repeated when none is repeated in the input), and every input postcode
    is in the list of exactly one warehouse. *)
Theorem assignment_is_partition
    (self : RouteOptimiser) (warehouses postcodes : list string) :
  warehouses <> [] ->
  exists wa,
    value (assign_postcodes_to_warehouses self warehouses postcodes) = Ok wa /\
    NoDup (Dict.keys wa) /\
    (forall w, In w (Dict.keys wa) <-> In w warehouses) /\
    Permutation (concat (Dict.values wa)) postcodes /\
    (NoDup postcodes -> NoDup (concat (Dict.values wa))) /\
    (forall p, In p postcodes -> exists w, only_at wa p w).
Proof.
  destruct warehouses as [|w0 rest]; [congruence|]. intros _.
  destruct (assign_postcodes_to_warehouses_spec self w0 rest postcodes)
    as (wd & wa & _ & Run & Hrows & ND & Keys & Perm & _).
  destruct (assigned_to_target self w0 rest postcodes)
    as (wd' & wa' & Run' & Hrows' & _ & Where & _).
  assert (wa' = wa) by congruence. subst wa'.
  exists wa. repeat (split; [assumption|]). split.
  - intros NDp. apply (Permutation_NoDup (Permutation_sym Perm) NDp).
  - intros p Ip.
    destruct (target_warehouse_in self wd' p w0 rest) as (w & T & _).
    { intros x Ix. now apply Hrows'. }
    exists w. now apply Where.
Qed.

Lemma assignment_is_partition_witness :
  ["A"; "B"] <> [] /\
  exists wa,
    value (assign_postcodes_to_warehouses
             (example_optimiser [("A", "p", 7); ("B", "q", 3)] [])
             ["A"; "B"] ["p"; "q"; "r"]) = Ok wa /\
    NoDup (Dict.keys wa) /\
    (forall w, In w (Dict.keys wa) <-> In w ["A"; "B"]) /\
    Permutation (concat (Dict.values wa)) ["p"; "q"; "r"] /\
    (NoDup ["p"; "q"; "r"] -> NoDup (concat (Dict.values wa))) /\
    (forall p, In p ["p"; "q"; "r"] -> exists w, only_at wa p w).
Proof.
  assert (NE : ["A"; "B"] <> []) by discriminate.
  split; [exact NE|].
  exact (assignment_is_partition
           (example_optimiser [("A", "p", 7); ("B", "q", 3)] [])
           ["A"; "B"] ["p"; "q"; "r"] NE).
Defined.

(** C2, at an input where it fails.  The warehouse with the least returned
    distance to ["p"] is the one whose name is the empty string, and the
    postcode is appended to the list of ["A"], the first warehouse. *)
Theorem nearest_with_empty_name_is_skipped :
  let self := example_optimiser [("A", "p", 10); ("", "p", 5)] [] in
  value (get_distance self "A" "p") = Ok (Some 10) /\
  value (get_distance self "" "p") = Ok (Some 5) /\
  first_nearest self ["A"; ""] "p" "" /\
  value (assign_postcodes_to_warehouses self ["A"; ""] ["p"])
  = Ok [("A", ["p"]); ("", [])].
Proof.
  repeat split.
  exists 5, ["A"], []. repeat split.
  - intros w' d' [<-|[]] R.
    assert (d' = 10) by (vm_compute in R; congruence). lia.
  - intros w' d' [].
Qed.

(** C3, as the code has it.  A postcode for which [get_distance] returns
    [None] for every warehouse is appended to the list of the first
    warehouse, and to no other list. *)
Theorem unavailable_falls_back_to_first
    (self : RouteOptimiser) (w0 : string) (rest postcodes : list string)
    (p : string) :
  In p postcodes ->
  (forall w, In w (w0 :: rest) -> value (get_distance self w p) = Ok None) ->
  exists wa,
    value (assign_postcodes_to_warehouses self (w0 :: rest) postcodes) = Ok wa /\
    only_at wa p w0.
Proof.
  intros Ip Unavailable.
  destruct (assigned_to_target self w0 rest postcodes)
    as (wd & wa & Run & Hrows & _ & Where & _).
  exists wa. split; [exact Run|]. apply Where; [exact Ip|].
  destruct (target_warehouse_spec self wd p w0 rest)
    as [[_ T]|(w1 & First1 & _)]; [| exact T |].
  - intros x Ix. now apply Hrows.
  - destruct First1 as (d & l1 & l2 & Split & R & _).
    assert (I1 : In w1 (w0 :: rest))
      by (rewrite Split; apply in_app_iff; right; now left).
    specialize (Unavailable w1 I1).
    rewrite value_get_distance in Unavailable. congruence.
Qed.

Lemma unavailable_falls_back_to_first_witness :
  In "p" ["p"; "q"] /\
  (forall w, In w ["A"; "B"] ->
     value (get_distance (example_optimiser [("A", "q", 4)] []) w "p") = Ok None) /\
  exists wa,
    value (assign_postcodes_to_warehouses (example_optimiser [("A", "q", 4)] [])
             ["A"; "B"] ["p"; "q"]) = Ok wa /\
    only_at wa "p" "A".
Proof.
  assert (I : In "p" ["p"; "q"]) by (simpl; auto).
  assert (U : forall w, In w ["A"; "B"] ->
     value (get_distance (example_optimiser [("A", "q", 4)] []) w "p") = Ok None)
    by (intros w [<-|[<-|[]]]; vm_compute; reflexivity).
  split; [exact I|]. split; [exact U|].
  exact (unavailable_falls_back_to_first
           (example_optimiser [("A", "q", 4)] []) "A" ["B"] ["p"; "q"] "p" I U).
Defined.

(** C3, as stated, fails: a run in which every distance to ["p"] is
    unavailable returns the same assignment, with the same empty log, as a
    run in which ["A"] is its nearest warehouse.  Nothing the caller gets
    tells the fallback apart. *)
Lemma fallback_is_silent :
  let unavailable := example_optimiser [] [] in
  let available := example_optimiser [("A", "p", 5)] [] in
  value (get_distance unavailable "A" "p") = Ok None /\
  value (get_distance unavailable "B" "p") = Ok None /\
  value (get_distance available "A" "p") = Ok (Some 5) /\
  assign_postcodes_to_warehouses unavailable ["A"; "B"] ["p"]
  = (Ok [("A", ["p"]); ("B", [])], []) /\
  assign_postcodes_to_warehouses available ["A"; "B"] ["p"]
  = (Ok [("A", ["p"]); ("B", [])], []).
Proof. repeat split; vm_compute; reflexivity. Qed.

(** C4.  With at least one postcode in total (no warehouse holding more than
    the total) and a fleet size below [2 ^ 1000] in absolute value, step 2
    of [main] returns, and after the adjustment the numbers of trucks of the
    warehouses add up to [total_trucks] exactly: the whole difference to the
    raw rounded numbers went to the first warehouse, in input order, among
    those with the most assigned postcodes. *)
Theorem allocation_sums_to_fleet_size
    (warehouse_assignments : dict string (list string))
    (total_postcodes total_trucks : Z) (warehouses : list string) :
  warehouses <> [] ->
  0 < total_postcodes ->
  Z.abs total_trucks < 2 ^ 1000 ->
  (forall w, In w warehouses ->
     exists assigned,
       Dict.get warehouse_assignments w = Some assigned /\
       len assigned <= total_postcodes) ->
  exists raw tpw larger l1 l2 n,
    allocation_loop warehouse_assignments total_postcodes total_trucks
      warehouses Dict.empty = Ok raw /\
    allocate_trucks warehouse_assignments total_postcodes total_trucks
      warehouses = Ok tpw /\
    warehouses = l1 ++ larger :: l2 /\
    (forall w, In w l1 ->
       assigned_count warehouse_assignments w
       < assigned_count warehouse_assignments larger) /\
    (forall w, In w l2 ->
       assigned_count warehouse_assignments w
       <= assigned_count warehouse_assignments larger) /\
    Dict.get raw larger = Some n /\
    tpw = Dict.setitem raw larger
            (n + (total_trucks - sum_int (Dict.values raw))) /\
    sum_int (Dict.values tpw) = total_trucks.
Proof.
  intros NE HT HF Hall.
  destruct (allocate_trucks_spec warehouse_assignments total_postcodes
              total_trucks warehouses NE
              (shares_are_computed _ _ _ _ HT HF Hall))
    as (raw & tpw & larger & l1 & l2 & n & Run & All & _ & _ & _ & _ & Split
        & Below & Above & G & Patch & Sum).
  exists raw, tpw, larger, l1, l2, n. auto 10.
Qed.

Lemma allocation_sums_to_fleet_size_witness :
  ["A"; "B"; "C"] <> [] /\
  0 < 3 /\
  Z.abs 10 < 2 ^ 1000 /\
  exists raw tpw larger l1 l2 n,
    allocation_loop [("A", ["p1"]); ("B", ["p2"; "p3"]); ("C", [])] 3 10
      ["A"; "B"; "C"] Dict.empty = Ok raw /\
    allocate_trucks [("A", ["p1"]); ("B", ["p2"; "p3"]); ("C", [])] 3 10
      ["A"; "B"; "C"] = Ok tpw /\
    ["A"; "B"; "C"] = l1 ++ larger :: l2 /\
    (forall w, In w l1 ->
       assigned_count [("A", ["p1"]); ("B", ["p2"; "p3"]); ("C", [])] w
       < assigned_count [("A", ["p1"]); ("B", ["p2"; "p3"]); ("C", [])] larger) /\
    (forall w, In w l2 ->
       assigned_count [("A", ["p1"]); ("B", ["p2"; "p3"]); ("C", [])] w
       <= assigned_count [("A", ["p1"]); ("B", ["p2"; "p3"]); ("C", [])] larger) /\
    Dict.get raw larger = Some n /\
    tpw = Dict.setitem raw larger (n + (10 - sum_int (Dict.values raw))) /\
    sum_int (Dict.values tpw) = 10.
Proof.
  assert (NE : ["A"; "B"; "C"] <> []) by discriminate.
  assert (HT : 0 < 3) by lia.
  assert (HF : Z.abs 10 < 2 ^ 1000) by (vm_compute; reflexivity).
  split; [exact NE|]. split; [exact HT|]. split; [exact HF|].
  apply (allocation_sums_to_fleet_size
           [("A", ["p1"]); ("B", ["p2"; "p3"]); ("C", [])] 3 10
           ["A"; "B"; "C"] NE HT HF).
  intros w [<-|[<-|[<-|[]]]]; eexists; (split; [reflexivity|]);
    vm_compute; discriminate.
Defined.

(** C5, as the code has it.  With at least one postcode in total and a
    fleet size below [2 ^ 1000] in absolute value, step 2 of [main] returns;
    every warehouse, also one with no assigned postcode, gets a raw number
    of at least 1, and exactly 1 when it has no postcode; the adjustment
    changes the number of the larger warehouse only, so every other
    warehouse ends with at least one truck. *)
Theorem allocation_floor_applies_to_all
    (warehouse_assignments : dict string (list string))
    (total_postcodes total_trucks : Z) (warehouses : list string) :
  warehouses <> [] ->
  0 < total_postcodes ->
  Z.abs total_trucks < 2 ^ 1000 ->
  (forall w, In w warehouses ->
     exists assigned,
       Dict.get warehouse_assignments w = Some assigned /\
       len assigned <= total_postcodes) ->
  exists raw tpw larger,
    allocation_loop warehouse_assignments total_postcodes total_trucks
      warehouses Dict.empty = Ok raw /\
    allocate_trucks warehouse_assignments total_postcodes total_trucks
      warehouses = Ok tpw /\
    larger_warehouse warehouse_assignments warehouses = Ok larger /\
    (forall w, In w warehouses ->
       exists n, Dict.get raw w = Some n /\ 1 <= n /\
                 (assigned_count warehouse_assignments w = 0 -> n = 1)) /\
    (forall w, In w warehouses -> w <> larger ->
       exists n, Dict.get tpw w = Some n /\ Dict.get raw w = Some n /\ 1 <= n).
Proof.
  intros NE HT HF Hall.
  destruct (allocate_trucks_spec warehouse_assignments total_postcodes
              total_trucks warehouses NE
              (shares_are_computed _ _ _ _ HT HF Hall))
    as (raw & tpw & larger & l1 & l2 & n & Run & All & _ & _ & Vals & Max & _
        & _ & _ & G & Patch & _).
  assert (Floor : forall w, In w warehouses ->
            exists n, Dict.get raw w = Some n /\ 1 <= n /\
                      (assigned_count warehouse_assignments w = 0 -> n = 1)).
  { intros w I. destruct (Vals w I) as (m & (assigned & Ga & R) & Gm).
    exists m. split; [exact Gm|]. split.
    - unfold raw_trucks in R.
      destruct (Float.int_true_div _ _); simpl in R; [|discriminate].
      destruct (Float.mul_int _ _); simpl in R; [|discriminate].
      destruct (Float.round _); simpl in R; [|discriminate].
      injection R as <-. lia.
    - unfold assigned_count, Dict.get_default. rewrite Ga. intros Z0.
      rewrite Z0 in R. eapply round_of_zero_share; eauto. }
  exists raw, tpw, larger. repeat (split; [assumption|]).
  intros w I N. destruct (Floor w I) as (m & Gm & Pos & _).
  exists m. split; [|auto]. subst tpw.
  rewrite DictFacts.get_setitem_other by congruence. exact Gm.
Qed.

Lemma allocation_floor_applies_to_all_witness :
  ["A"; "B"] <> [] /\
  0 < 3 /\
  Z.abs 5 < 2 ^ 1000 /\
  exists raw tpw larger,
    allocation_loop [("A", ["p1"; "p2"; "p3"]); ("B", [])] 3 5 ["A"; "B"]
      Dict.empty = Ok raw /\
    allocate_trucks [("A", ["p1"; "p2"; "p3"]); ("B", [])] 3 5 ["A"; "B"]
    = Ok tpw /\
    larger_warehouse [("A", ["p1"; "p2"; "p3"]); ("B", [])] ["A"; "B"]
    = Ok larger /\
    (forall w, In w ["A"; "B"] ->
       exists n, Dict.get raw w = Some n /\ 1 <= n /\
                 (assigned_count [("A", ["p1"; "p2"; "p3"]); ("B", [])] w = 0
                  -> n = 1)) /\
    (forall w, In w ["A"; "B"] -> w <> larger ->
       exists n, Dict.get tpw w = Some n /\ Dict.get raw w = Some n /\ 1 <= n).
Proof.
  assert (NE : ["A"; "B"] <> []) by discriminate.
  assert (HT : 0 < 3) by lia.
  assert (HF : Z.abs 5 < 2 ^ 1000) by (vm_compute; reflexivity).
  split; [exact NE|]. split; [exact HT|]. split; [exact HF|].
  apply (allocation_floor_applies_to_all
           [("A", ["p1"; "p2"; "p3"]); ("B", [])] 3 5 ["A"; "B"] NE HT HF).
  intros w [<-|[<-|[]]]; eexists; (split; [reflexivity|]);
    vm_compute; discriminate.
Defined.

(** C5, as stated, fails.  Four warehouses with one postcode each and six
    trucks: every share rounds to 2, the difference of -2 goes to ["A"], and
    ["A"] ends with no truck although it has a postcode and there are more
    trucks than warehouses.  And a warehouse with no postcode is floored at 1
    as well: with three postcodes at ["A"], none at ["B"] and five trucks the
    raw numbers are 5 and 1, and ["B"] keeps its truck. *)
Lemma allocation_can_reach_zero :
  len ["A"; "B"; "C"; "D"] <= 6 /\
  allocate_trucks [("A", ["p1"]); ("B", ["p2"]); ("C", ["p3"]); ("D", ["p4"])]
    4 6 ["A"; "B"; "C"; "D"]
  = Ok [("A", 0); ("B", 2); ("C", 2); ("D", 2)] /\
  len ["A"; "B"] <= 5 /\
  allocation_loop [("A", ["p1"; "p2"; "p3"]); ("B", [])] 3 5 ["A"; "B"] Dict.empty
  = Ok [("A", 5); ("B", 1)] /\
  allocate_trucks [("A", ["p1"; "p2"; "p3"]); ("B", [])] 3 5 ["A"; "B"]
  = Ok [("A", 4); ("B", 1)].
Proof.
  repeat split; try (vm_compute; congruence); vm_compute; reflexivity.
Qed.

(** C6.  With four postcodes assigned to [X] and two to [Y]: for 10 trucks
    the rounded shares are 7 and 3, they add up to 10 and the adjustment
    changes nothing; for 9 trucks they are 6 and 3, they add up to 9 and the
    adjustment changes nothing. *)
Theorem scenario_allocations
    (X Y : string) (warehouse_assignments : dict string (list string))
    (assigned_X assigned_Y : list string) :
  X <> Y ->
  Dict.get warehouse_assignments X = Some assigned_X ->
  Dict.get warehouse_assignments Y = Some assigned_Y ->
  len assigned_X = 4 ->
  len assigned_Y = 2 ->
  allocation_loop warehouse_assignments 6 10 [X; Y] Dict.empty
  = Ok [(X, 7); (Y, 3)] /\
  sum_int (Dict.values [(X, 7); (Y, 3)]) = 10 /\
  allocate_trucks warehouse_assignments 6 10 [X; Y] = Ok [(X, 7); (Y, 3)] /\
  allocation_loop warehouse_assignments 6 9 [X; Y] Dict.empty
  = Ok [(X, 6); (Y, 3)] /\
  sum_int (Dict.values [(X, 6); (Y, 3)]) = 9 /\
  allocate_trucks warehouse_assignments 6 9 [X; Y] = Ok [(X, 6); (Y, 3)].
Proof.
  intros N GX GY LX LY.
  assert (E : (X =? Y)%string = false) by now apply String.eqb_neq.
  assert (R10 : allocation_loop warehouse_assignments 6 10 [X; Y] Dict.empty
                = Ok [(X, 7); (Y, 3)]).
  { simpl. unfold Dict.getitem. rewrite GX, GY, LX, LY.
    rewrite raw_trucks_4_6_10, raw_trucks_2_6_10. simpl. now rewrite E. }
  assert (R9 : allocation_loop warehouse_assignments 6 9 [X; Y] Dict.empty
               = Ok [(X, 6); (Y, 3)]).
  { simpl. unfold Dict.getitem. rewrite GX, GY, LX, LY.
    rewrite raw_trucks_4_6_9, raw_trucks_2_6_9. simpl. now rewrite E. }
  repeat split; try assumption.
  - unfold allocate_trucks. rewrite R10. reflexivity.
  - unfold allocate_trucks. rewrite R9. reflexivity.
Qed.

Lemma scenario_allocations_witness :
  "X" <> "Y" /\
  allocate_trucks [("X", ["1"; "2"; "3"; "4"]); ("Y", ["5"; "6"])] 6 10 ["X"; "Y"]
  = Ok [("X", 7); ("Y", 3)] /\
  allocate_trucks [("X", ["1"; "2"; "3"; "4"]); ("Y", ["5"; "6"])] 6 9 ["X"; "Y"]
  = Ok [("X", 6); ("Y", 3)].
Proof.
  assert (N : "X" <> "Y") by discriminate.
  split; [exact N|].
  destruct (scenario_allocations "X" "Y"
              [("X", ["1"; "2"; "3"; "4"]); ("Y", ["5"; "6"])]
              ["1"; "2"; "3"; "4"] ["5"; "6"] N eq_refl eq_refl eq_refl eq_refl)
    as (_ & _ & A10 & _ & _ & A9).
  split; assumption.
Defined.

(** C7.  With a positive number of trucks, [divide_postcodes_among_trucks]
    returns; postcode [i] is in the load of truck [i mod num_trucks], at
    position [i / num_trucks]; the keys are distinct numbers of
    [0 .. num_trucks - 1]; the loads together are a rearrangement of the
    postcodes; and the sizes of the loads of any two trucks (zero for a truck
    that got nothing) differ by at most one. *)
Theorem divide_is_round_robin (postcodes : list string) (num_trucks : Z) :
  0 < num_trucks ->
  exists trucks,
    divide_postcodes_among_trucks postcodes num_trucks = Ok trucks /\
    (forall i pc, nth_error postcodes i = Some pc ->
       exists load,
         Dict.get trucks (Z.of_nat i mod num_trucks) = Some load /\
         nth_error load (Z.to_nat (Z.of_nat i / num_trucks)) = Some pc) /\
    NoDup (Dict.keys trucks) /\
    (forall k, In k (Dict.keys trucks) -> 0 <= k < num_trucks) /\
    Permutation (concat (Dict.values trucks)) postcodes /\
    (forall j k, 0 <= j < num_trucks -> 0 <= k < num_trucks ->
       Z.abs (len (load_of trucks j) - len (load_of trucks k)) <= 1).
Proof.
  intros Hn.
  destruct (divide_loop_spec (enumerate postcodes) num_trucks ltac:(lia) Dict.empty)
    as (trucks & Run & Loads & ND & Keys & Perm).
  exists trucks. split; [exact Run|]. split; [|split; [|split; [|split]]].
  - intros i pc Hi.
    pose proof (round_robin_load_nth postcodes num_trucks i pc Hn Hi) as Nth.
    rewrite <- (app_nil_l (round_robin_load _ _ _)) in Nth.
    change (@nil string) with (load_of Dict.empty (Z.of_nat i mod num_trucks)) in Nth.
    rewrite <- Loads in Nth.
    exists (load_of trucks (Z.of_nat i mod num_trucks)). split; [|exact Nth].
    unfold load_of, Dict.get_default in *.
    destruct (Dict.get trucks (Z.of_nat i mod num_trucks)); [reflexivity|].
    destruct (Z.to_nat _); discriminate.
  - apply ND. constructor.
  - intros k I. destruct (Keys k I) as [[]|(i & ->)].
    now apply Z.mod_pos_bound.
  - rewrite Perm. simpl. unfold enumerate. now rewrite map_snd_enumerate_from.
  - intros j k Hj Hk. rewrite !Loads. simpl.
    rewrite !round_robin_load_length by assumption.
    destruct (Z.ltb_spec j (len postcodes mod num_trucks));
      destruct (Z.ltb_spec k (len postcodes mod num_trucks)); lia.
Qed.

Lemma divide_is_round_robin_witness :
  exists trucks,
    divide_postcodes_among_trucks ["a"; "b"; "c"; "d"; "e"] 2 = Ok trucks /\
    (forall i pc, nth_error ["a"; "b"; "c"; "d"; "e"] i = Some pc ->
       exists load,
         Dict.get trucks (Z.of_nat i mod 2) = Some load /\
         nth_error load (Z.to_nat (Z.of_nat i / 2)) = Some pc) /\
    NoDup (Dict.keys trucks) /\
    (forall k, In k (Dict.keys trucks) -> 0 <= k < 2) /\
    Permutation (concat (Dict.values trucks)) ["a"; "b"; "c"; "d"; "e"] /\
    (forall j k, 0 <= j < 2 -> 0 <= k < 2 ->
       Z.abs (len (load_of trucks j) - len (load_of trucks k)) <= 1).
Proof.
  apply (divide_is_round_robin ["a"; "b"; "c"; "d"; "e"] 2). lia.
Defined.

(** C8, as the code has it.  When [main] returns a report: the printed
    warehouses are the warehouses with at least one assigned postcode, in
    the order of the input; the printed vehicles of a warehouse are its
    vehicles with stops, in order, the stops of each are the labels of the
    legs returned for the closed route [[warehouse] + stops + [warehouse]]
    and its distance is the sum of the leg distances divided by 1000; the
    total of a warehouse is the sum of the distances of its vehicles,
    accumulated from [0] in the order they are printed; and the grand total
    is the sum of the distances of all printed vehicles, accumulated from
    [0] in the order they are printed. *)
Theorem totals_are_running_sums
    (self : RouteOptimiser) (warehouses : list string)
    (warehouse_alias : dict string string) (postcodes : list string)
    (total_trucks : Z) (rep : report) :
  value (main_with self warehouses warehouse_alias postcodes total_trucks)
  = Ok rep ->
  exists wa tpw,
    value (assign_postcodes_to_warehouses self warehouses postcodes) = Ok wa /\
    allocate_trucks wa (len postcodes) total_trucks warehouses = Ok tpw /\
    map reported_warehouse (warehouse_reports rep)
    = filter (has_postcodes wa) warehouses /\
    Forall (warehouse_reported self wa tpw) (warehouse_reports rep) /\
    grand_total_distance rep
    = Float.sum (concat (map reported_distances (warehouse_reports rep))).
Proof.
  unfold main_with. rewrite value_bind.
  destruct (value (assign_postcodes_to_warehouses self warehouses postcodes))
    as [wa|e] eqn:Assign; [|discriminate].
  rewrite value_bind, value_lift.
  destruct (allocate_trucks wa (len postcodes) total_trucks warehouses)
    as [tpw|e] eqn:Alloc; [|discriminate].
  rewrite value_bind.
  destruct (value (warehouses_loop self warehouse_alias wa tpw warehouses
                     Float.zero 0)) as [[reports g]|e] eqn:Loop; [|discriminate].
  intros [= <-]. simpl.
  pose proof (warehouses_loop_names _ _ _ _ _ _ _ _ _ Loop) as Names.
  apply warehouses_loop_spec in Loop. destruct Loop as [All G].
  exists wa, tpw. repeat split; assumption.
Qed.

Lemma totals_are_running_sums_witness :
  value (main_with three_routes ["A"; "B"] [] ["p1"; "p2"; "p3"] 3)
  = Ok three_routes_report /\
  exists wa tpw,
    value (assign_postcodes_to_warehouses three_routes ["A"; "B"]
             ["p1"; "p2"; "p3"]) = Ok wa /\
    allocate_trucks wa (len ["p1"; "p2"; "p3"]) 3 ["A"; "B"] = Ok tpw /\
    map reported_warehouse (warehouse_reports three_routes_report)
    = filter (has_postcodes wa) ["A"; "B"] /\
    Forall (warehouse_reported three_routes wa tpw)
           (warehouse_reports three_routes_report) /\
    grand_total_distance three_routes_report
    = Float.sum (concat (map reported_distances
                           (warehouse_reports three_routes_report))).
Proof.
  assert (Run : value (main_with three_routes ["A"; "B"] []
                         ["p1"; "p2"; "p3"] 3) = Ok three_routes_report)
    by (vm_compute; reflexivity).
  split; [exact Run|].
  exact (totals_are_running_sums three_routes ["A"; "B"] []
           ["p1"; "p2"; "p3"] 3 three_routes_report Run).
Defined.

(** C8, as stated, fails.  One vehicle of 0.1 km at ["A"], two of 0.2 km and
    0.3 km at ["B"]: the warehouse totals are 0.1 and 0.5, their sum is 0.6,
    and the grand total, accumulated vehicle by vehicle, is
    0.6000000000000001. *)
Lemma grand_total_is_not_sum_of_warehouse_totals :
  main_with three_routes ["A"; "B"] [] ["p1"; "p2"; "p3"] 3
  = (Ok three_routes_report, []) /\
  map warehouse_total_distance (warehouse_reports three_routes_report)
  = [f0_1; f0_5] /\
  Float.add (Float.add Float.zero f0_1) f0_5 = f0_6 /\
  Float.sum (map warehouse_total_distance (warehouse_reports three_routes_report))
  = f0_6 /\
  grand_total_distance three_routes_report = f0_6_next /\
  Float.add (Float.add (Float.add Float.zero f0_1) f0_2) f0_3 = f0_6_next /\
  grand_total_distance three_routes_report
  <> Float.sum (map warehouse_total_distance
                  (warehouse_reports three_routes_report)).
Proof.
  repeat split; vm_compute; first [reflexivity | discriminate].
Qed.

(** C9, as the code has it.  A vehicle with stops for which
    [get_optimised_route] returns no legs does not stop
    [optimise_routes_for_trucks]: when the legs of every other vehicle add
    up to less than [2 ^ 1000] metres, the function returns, the result
    has an entry for every vehicle with stops, in their order, and the entry
    of this vehicle has an empty route and the distance [0.0]; adding [0.0]
    leaves a total as it is. *)
Theorem failed_route_is_reported_empty
    (self : RouteOptimiser) (trucks : dict Z (list string))
    (warehouse : string) (truck_id : Z) (stops : list string) :
  NoDup (Dict.keys trucks) ->
  Dict.get trucks truck_id = Some stops ->
  stops <> [] ->
  value (get_optimised_route self ([warehouse] ++ stops ++ [warehouse])) = Ok [] ->
  (forall item, In item (Dict.items trucks) -> fst item <> truck_id ->
     Z.abs (sum_int (map distance (route_legs self warehouse (snd item))))
     < 2 ^ 1000) ->
  exists truck_routes,
    value (optimise_routes_for_trucks self trucks warehouse) = Ok truck_routes /\
    Dict.keys truck_routes = map fst (filter has_stops (Dict.items trucks)) /\
    Dict.get truck_routes truck_id
    = Some {| route := []; total_distance := Float.zero |} /\
    forall total, total <> S754_zero true -> Float.add total Float.zero = total.
Proof.
  intros ND G NE Failed Others.
  assert (Legs : route_legs self warehouse stops = [])
    by (unfold route_legs; now rewrite Failed).
  assert (All : forall item, In item (Dict.items trucks) ->
                  has_stops item = true ->
                  exists r, route_of self warehouse (snd item) = Ok r).
  { intros [id stops'] I S. destruct (Z.eq_dec id truck_id) as [->|N].
    - apply DictFacts.In_get_Some in I; [|exact ND].
      unfold Dict.items in I.
      assert (stops' = stops) by congruence. subst stops'.
      eexists. now apply route_of_no_legs.
    - apply route_of_total. now apply (Others (id, stops')). }
  destruct (routes_loop_total self warehouse (Dict.items trucks) All Dict.empty)
    as (truck_routes & Run).
  exists truck_routes. split; [exact Run|].
  destruct (routes_loop_spec self warehouse (Dict.items trucks) ND Dict.empty
              (fun _ _ F => F) truck_routes Run) as (entries & -> & F2).
  simpl app. split; [|split; [|exact add_zero_r]].
  - clear - F2. induction F2 as [|item entry items entries [E _] _ IH]; simpl;
      [reflexivity | now rewrite E, IH].
  - assert (I : In (truck_id, stops) (filter has_stops (Dict.items trucks))).
    { apply filter_In. split; [now apply DictFacts.get_Some_In|].
      destruct stops; [congruence | reflexivity]. }
    assert (NDe : NoDup (Dict.keys entries)).
    { assert (K : Dict.keys entries = map fst (filter has_stops (Dict.items trucks))).
      { clear - F2. induction F2 as [|item entry items entries [E _] _ IH]; simpl;
          [reflexivity | now rewrite E, IH]. }
      rewrite K. clear - ND. unfold Dict.keys, Dict.items in *.
      induction trucks as [|[k v] d IH]; simpl; [constructor|].
      inversion ND as [|? ? NI ND']; subst.
      destruct (has_stops (k, v)); simpl; [|auto].
      constructor; [|auto]. intros I. apply NI.
      apply in_map_iff in I. destruct I as (x & <- & I).
      apply filter_In in I. apply in_map. tauto. }
    apply DictFacts.In_get_Some; [exact NDe|].
    clear - F2 I Legs. induction F2 as [|item [id r] items entries [E R] _ IH].
    + destruct I.
    + destruct I as [->|I]; [|right; auto].
      left. simpl in *. rewrite route_of_no_legs in R by assumption.
      injection R as <-. now rewrite E.
Qed.

Lemma failed_route_is_reported_empty_witness :
  exists truck_routes,
    value (optimise_routes_for_trucks three_routes
             [(0, ["p2"]); (1, ["q"])] "B") = Ok truck_routes /\
    Dict.keys truck_routes
    = map fst (filter has_stops (Dict.items [(0, ["p2"]); (1, ["q"])])) /\
    Dict.get truck_routes 1
    = Some {| route := []; total_distance := Float.zero |} /\
    forall total, total <> S754_zero true -> Float.add total Float.zero = total.
Proof.
  apply (failed_route_is_reported_empty three_routes
           [(0, ["p2"]); (1, ["q"])] "B" 1 ["q"]).
  - repeat constructor; simpl; intuition discriminate.
  - reflexivity.
  - discriminate.
  - vm_compute. reflexivity.
  - intros item [<-|[<-|[]]] N.
    + vm_compute. reflexivity.
    + now contradiction N.
Defined.

(** C9, as stated, fails.  The Directions service answers the only route
    with a status other than "OK": [main] returns the report, with the
    vehicle, an empty route and the distance [0.0], and no record was logged
    at any level. *)
Lemma failed_route_logs_nothing :
  value (get_optimised_route no_route ["A"; "p"; "A"]) = Ok [] /\
  main_with no_route ["A"] [] ["p"] 1
  = (Ok {| warehouse_reports :=
             [{| reported_warehouse := "A";
                 warehouse_label := "A";
                 assigned_trucks := 1;
                 truck_reports :=
                   [{| actual_truck_id := 1;
                       truck_distance := Float.zero;
                       truck_stops := [] |}];
                 warehouse_total_distance := Float.zero |}];
           grand_total_distance := Float.zero |},
     []).
Proof. split; vm_compute; reflexivity. Qed.

(** C10.  A postcode whose first nearest warehouse is the empty string is
    appended to the list of [warehouses[0]] and to no other list; and the
    empty-string warehouse holds a postcode only when it is [warehouses[0]]
    itself, never as the nearest warehouse. *)
Theorem empty_name_is_never_nearest
    (self : RouteOptimiser) (w0 : string) (rest postcodes : list string) :
  exists wa,
    value (assign_postcodes_to_warehouses self (w0 :: rest) postcodes) = Ok wa /\
    (forall p, In p postcodes -> first_nearest self (w0 :: rest) p "" ->
       only_at wa p w0) /\
    (forall l p, Dict.get wa "" = Some l -> In p l -> w0 = "").
Proof.
  destruct (assigned_to_target self w0 rest postcodes)
    as (wd & wa & Run & Hrows & _ & Where & Back).
  exists wa. split; [exact Run|]. split.
  - intros p Ip First.
    destruct (nearest_assignment self w0 rest postcodes p "" Ip First)
      as (wa' & Run' & Only).
    assert (wa' = wa) by congruence. subst wa'. exact Only.
  - intros l p G Il. destruct (Back p "" l G Il) as [Ip T].
    destruct (target_warehouse_spec self wd p w0 rest)
      as [[_ T0]|(w1 & First1 & T1)].
    + intros x Ix. now apply Hrows.
    + congruence.
    + rewrite T1 in T. destruct w1; simpl in T; congruence.
Qed.


(** * Further properties of the code *)

(** ** Requests, the distance matrix and the assignment *)

Lemma logged_bind {A B} (m : Py A) (f : A -> Py B) :
  logged (bind m f) =
  logged m ++ match value m with
              | Ok a => logged (f a)
              | Raise _ => []
              end.
Proof.
  unfold logged, value; simpl. destruct (fst m); simpl; [reflexivity|].
  now rewrite app_nil_r.
Qed.

Section RequestLogFacts.
Import DictFacts.
Variable self : RouteOptimiser.

Lemma logged_distances_from (w : string) (postcodes : list string) :
  forall wd,
    In w (Dict.keys wd) ->
    logged (distances_from self w postcodes wd)
    = flat_map (fun p => logged (get_distance self w p)) postcodes.
Proof.
  induction postcodes as [|p0 ps IH]; intros wd I; [reflexivity|].
  rewrite distances_from_cons, logged_bind, value_get_distance.
  cbn [flat_map]. f_equal.
  destruct (returned_distance self w p0) as [d|].
  - destruct (keys_get_Some wd w I) as (row & G).
    rewrite logged_bind, value_lift. unfold Dict.getitem. rewrite G.
    apply IH. apply in_keys_setitem. now left.
  - now apply IH.
Qed.

Lemma logged_distances_loop (postcodes warehouses : list string) :
  forall wd,
    (forall w, In w warehouses -> In w (Dict.keys wd)) ->
    logged (distances_loop self warehouses postcodes wd)
    = flat_map (fun w => flat_map (fun p => logged (get_distance self w p))
                           postcodes)
               warehouses.
Proof.
  induction warehouses as [|w ws IH]; intros wd Hkeys; [reflexivity|].
  pose proof (Hkeys w (or_introl eq_refl)) as Iw.
  destruct (keys_get_Some wd w Iw) as (row & G).
  destruct (distances_from_spec self w postcodes wd row G)
    as (wd1 & row1 & Run1 & Keys1 & _).
  rewrite distances_loop_cons, logged_bind, Run1.
  rewrite logged_distances_from by assumption. cbn [flat_map]. f_equal.
  apply IH. intros x I. rewrite Keys1. apply Hkeys. now right.
Qed.

End RequestLogFacts.

Section OrderFacts.
Import DictFacts.
Variable self : RouteOptimiser.

Lemma assign_loop_order (wd : dict string (dict string Z))
    (warehouses postcodes : list string) :
  (forall p, In p postcodes ->
     exists w, target_warehouse wd warehouses p = Ok w /\ In w warehouses) ->
  forall wa,
    (forall w, In w warehouses -> In w (Dict.keys wa)) ->
    exists wa',
      assign_loop wd warehouses postcodes wa = Ok wa' /\
      forall w l, Dict.get wa w = Some l ->
        Dict.get wa' w = Some (l ++ filter (sent_to wd warehouses w) postcodes).
Proof.
  induction postcodes as [|p rest IH]; intros Htarget wa Hkeys.
  - exists wa. split; [reflexivity|]. intros w l G. now rewrite app_nil_r.
  - destruct (Htarget p (or_introl eq_refl)) as (w0 & T & I0).
    destruct (keys_get_Some wa w0 (Hkeys w0 I0)) as (l0 & G0).
    rewrite assign_loop_cons, T. simpl.
    unfold append_at, Dict.getitem. rewrite G0. simpl.
    destruct (IH (fun q I => Htarget q (or_intror I))
                 (Dict.setitem wa w0 (l0 ++ [p])))
      as (wa' & Run & Lists).
    { intros w I. apply in_keys_setitem. right. auto. }
    exists wa'. split; [exact Run|].
    intros w l G. simpl. unfold sent_to at 1. rewrite T.
    destruct (String.eqb_spec w0 w) as [<-|N].
    + assert (l = l0) by congruence. subst l.
      rewrite (Lists w0 (l0 ++ [p]) (get_setitem_same _ _ _)).
      now rewrite <- app_assoc.
    + apply Lists. rewrite get_setitem_other; assumption.
Qed.

Lemma assignment_order_spec (w0 : string) (rest postcodes : list string) :
  exists wd wa,
    value (calculate_warehouse_distances self (w0 :: rest) postcodes) = Ok wd /\
    value (assign_postcodes_to_warehouses self (w0 :: rest) postcodes) = Ok wa /\
    (forall p w, In p postcodes -> In w (w0 :: rest) -> row_ok self wd p w) /\
    forall w, In w (w0 :: rest) ->
      Dict.get wa w = Some (filter (sent_to wd (w0 :: rest) w) postcodes).
Proof.
  destruct (calculate_warehouse_distances_spec self (w0 :: rest) postcodes)
    as (wd & Calc & Rows).
  assert (Hrows : forall p w, In p postcodes -> In w (w0 :: rest) ->
                              row_ok self wd p w).
  { intros p w Ip Iw. destruct (Rows w Iw) as (row & G & R).
    exists row. split; [exact G|]. rewrite R. now apply queried_In. }
  destruct (assign_loop_order wd (w0 :: rest) postcodes) with
    (wa := Dict.comprehension (fun _ : string => @nil string) (w0 :: rest))
    as (wa & Run & Lists).
  { intros p Ip. apply (target_warehouse_in self). intros w Iw. now apply Hrows. }
  { intros w I. now apply in_keys_comprehension. }
  exists wd, wa. split; [exact Calc|]. split.
  { unfold assign_postcodes_to_warehouses.
    rewrite value_bind, Calc, value_lift. exact Run. }
  split; [exact Hrows|].
  intros w I. apply (Lists w [] (get_comprehension_In _ _ _ I)).
Qed.

Lemma nearest_loop_ext (wd1 wd2 : dict string (dict string Z)) (p : string)
    (warehouses : list string) :
  (forall w, In w warehouses -> row_ok self wd1 p w) ->
  (forall w, In w warehouses -> row_ok self wd2 p w) ->
  forall min_distance nearest,
    nearest_loop wd1 p warehouses min_distance nearest
    = nearest_loop wd2 p warehouses min_distance nearest.
Proof.
  induction warehouses as [|w ws IH]; intros H1 H2 m n; [reflexivity|].
  rewrite (nearest_loop_step self wd1 p) by (apply H1; now left).
  rewrite (nearest_loop_step self wd2 p) by (apply H2; now left).
  assert (E : forall m' n', nearest_loop wd1 p ws m' n' = nearest_loop wd2 p ws m' n')
    by (apply IH; intros x I; [apply H1 | apply H2]; now right).
  destruct (returned_distance self w p) as [d|]; [|apply E].
  destruct (below d m); apply E.
Qed.

Lemma sent_to_ext (wd1 wd2 : dict string (dict string Z)) (p w : string)
    (warehouses : list string) :
  (forall w, In w warehouses -> row_ok self wd1 p w) ->
  (forall w, In w warehouses -> row_ok self wd2 p w) ->
  sent_to wd1 warehouses w p = sent_to wd2 warehouses w p.
Proof.
  intros H1 H2. unfold sent_to, target_warehouse.
  now rewrite (nearest_loop_ext wd1 wd2 p warehouses H1 H2).
Qed.

End OrderFacts.








(** ** Loads *)

Section DivideKeysFacts.
Import DictFacts.

Lemma range_snoc (start stop : Z) :
  start <= stop -> range start (stop + 1) = range start stop ++ [stop].
Proof.
  intros H. unfold range.
  replace (Z.to_nat (stop + 1 - start)) with (S (Z.to_nat (stop - start))) by lia.
  rewrite seq_S, map_app. simpl. do 2 f_equal. lia.
Qed.

Lemma in_range (start stop k : Z) : In k (range start stop) <-> start <= k < stop.
Proof.
  unfold range. rewrite in_map_iff. split.
  - intros (i & <- & I). apply in_seq in I. lia.
  - intros H. exists (Z.to_nat (k - start)). split; [lia|].
    apply in_seq. lia.
Qed.

Lemma divide_loop_app (l1 l2 : list (Z * string)) (n : Z) :
  forall d,
    divide_loop (l1 ++ l2) n d =
    match divide_loop l1 n d with
    | Ok d' => divide_loop l2 n d'
    | Raise e => Raise e
    end.
Proof.
  induction l1 as [|[i pc] l1 IH]; intros d; simpl; [reflexivity|].
  destruct (py_mod i n); simpl; [apply IH | reflexivity].
Qed.

Lemma values_setitem_Forall {K V} `{Hashable K} (P : V -> Prop)
    (d : dict K V) k v :
  Forall P (Dict.values d) -> P v -> Forall P (Dict.values (Dict.setitem d k v)).
Proof.
  intros F Pv. induction d as [|[k' v'] d IH]; simpl.
  - repeat constructor. exact Pv.
  - simpl in F. inversion F; subst.
    destruct (key_eqb k' k); simpl; constructor; auto.
Qed.

Lemma divide_keys (postcodes : list string) (n : Z) :
  0 < n ->
  exists trucks,
    divide_postcodes_among_trucks postcodes n = Ok trucks /\
    Dict.keys trucks = range 0 (Z.min (len postcodes) n) /\
    Forall (fun load => load <> []) (Dict.values trucks).
Proof.
  intros Hn. unfold divide_postcodes_among_trucks.
  induction postcodes as [|x l IH] using rev_ind.
  - exists Dict.empty. split; [reflexivity|]. split; [|constructor].
    unfold len; simpl. now rewrite Z.min_l by lia.
  - destruct IH as (d & Run & Keys & Loads).
    rewrite enumerate_app, divide_loop_app, Run. simpl.
    unfold py_mod. destruct (Z.eqb_spec n 0) as [E|_]; [lia|]. simpl.
    eexists. split; [reflexivity|]. split.
    + unfold defaultdict_append.
      assert (HL : len (l ++ [x]) = len l + 1)
        by (unfold len; rewrite length_app, Nat2Z.inj_add; reflexivity).
      assert (H0 : 0 <= len l) by (unfold len; lia).
      pose proof (Z.mod_pos_bound (len l) n Hn) as B.
      destruct (Z.lt_ge_cases (len l) n) as [Lt|Ge].
      * rewrite Z.mod_small by lia.
        rewrite keys_setitem_absent.
        { rewrite Keys, HL, !Z.min_l by lia. symmetry. now apply range_snoc. }
        rewrite Keys, in_range. lia.
      * rewrite keys_setitem_present.
        { rewrite Keys, HL, !Z.min_r by lia. reflexivity. }
        rewrite Keys, in_range. lia.
    + apply values_setitem_Forall; [exact Loads|].
      intros E. apply app_eq_nil in E. destruct E; discriminate.
Qed.

Lemma In_enumerate_from {A} (l : list A) (start : Z) (i : nat) (x : A) :
  nth_error l i = Some x -> In (start + Z.of_nat i, x) (enumerate_from start l).
Proof.
  revert start i. induction l as [|y l IH]; intros start i; [destruct i; discriminate|].
  destruct i as [|i]; simpl.
  - intros [= ->]. left. f_equal. lia.
  - intros H. right. replace (start + Z.pos (Pos.of_succ_nat i))
      with (start + 1 + Z.of_nat i) by lia. now apply IH.
Qed.

End DivideKeysFacts.






(** ** Routes *)

Section RouteRequestFacts.
Import DictFacts.
Variable self : RouteOptimiser.

Lemma Forall2_In_l {A B} (R : A -> B -> Prop) (l1 : list A) (l2 : list B) (x : A) :
  Forall2 R l1 l2 -> In x l1 -> exists y, In y l2 /\ R x y.
Proof.
  induction 1 as [|a b l1 l2 Rab _ IH]; intros I; [destruct I|].
  destruct I as [<-|I].
  - exists b. split; [now left | exact Rab].
  - destruct (IH I) as (y & Iy & Rxy). exists y. split; [now right | exact Rxy].
Qed.

Lemma filter_has_stops (items : list (Z * list string)) :
  Forall (fun load => load <> []) (map snd items) ->
  filter has_stops items = items.
Proof.
  induction items as [|[k [|stop stops]] items IH]; intros F; [reflexivity| |];
    inversion F; subst; simpl in *; [congruence|].
  unfold has_stops at 1. simpl. f_equal. now apply IH.
Qed.

(** What [optimise_routes_for_trucks] returns for vehicles that all have
    stops. *)
Lemma routes_of_loaded_vehicles (warehouse : string) (trucks : dict Z (list string)) :
  NoDup (Dict.keys trucks) ->
  Forall (fun load => load <> []) (Dict.values trucks) ->
  (forall stops, In stops (Dict.values trucks) ->
     Z.abs (sum_int (map distance (route_legs self warehouse stops))) < 2 ^ 1000) ->
  exists truck_routes,
    value (optimise_routes_for_trucks self trucks warehouse) = Ok truck_routes /\
    Dict.keys truck_routes = Dict.keys trucks /\
    forall k stops, Dict.get trucks k = Some stops ->
      exists r, route_of self warehouse stops = Ok r /\
                Dict.get truck_routes k = Some r.
Proof.
  intros ND Loaded Bounded. unfold optimise_routes_for_trucks.
  destruct (routes_loop_total self warehouse (Dict.items trucks)) with
    (truck_routes := @Dict.empty Z truck_route) as (routes & Run).
  { intros item I _. apply route_of_total. apply Bounded.
    unfold Dict.values, Dict.items in *. now apply in_map. }
  exists routes. split; [exact Run|].
  apply routes_loop_spec in Run; [|exact ND | intros id _ []].
  destruct Run as (entries & -> & F2). simpl app.
  rewrite filter_has_stops in F2 by exact Loaded.
  assert (Keys : Dict.keys entries = Dict.keys trucks).
  { unfold Dict.keys, Dict.items in *. clear - F2.
    induction F2 as [|item entry items entries [E _] _ IH]; simpl;
      [reflexivity | now rewrite E, IH]. }
  split; [exact Keys|].
  intros k stops G. apply get_Some_In in G.
  destruct (Forall2_In_l _ _ _ _ F2 G) as ([k' r] & I & E & R).
  simpl in E, R. subst k'. exists r. split; [exact R|].
  apply In_get_Some; [|exact I]. now rewrite Keys.
Qed.

End RouteRequestFacts.




(** ** The report *)

Section NumberingFacts.

Lemma map_seq_shift (a b : Z) (n : nat) :
  forall s t,
    a + Z.of_nat s = b + Z.of_nat t ->
    map (fun i => a + Z.of_nat i) (seq s n)
    = map (fun i => b + Z.of_nat i) (seq t n).
Proof.
  induction n as [|n IH]; intros s t E; simpl; [reflexivity|].
  f_equal; [exact E|]. apply IH. lia.
Qed.

Lemma range_app (a b c : Z) :
  a <= b <= c -> range a b ++ range b c = range a c.
Proof.
  intros H. unfold range.
  replace (Z.to_nat (c - a)) with (Z.to_nat (b - a) + Z.to_nat (c - b))%nat by lia.
  rewrite seq_app, map_app. f_equal.
  symmetry. apply map_seq_shift. lia.
Qed.

Lemma trucks_loop_ids (items : list (Z * truck_route)) :
  forall warehouse_total grand_total global_truck_id,
    let '(printed, _, _, gid) :=
      trucks_loop items warehouse_total grand_total global_truck_id in
    map actual_truck_id printed
    = range (global_truck_id + 1) (global_truck_id + 1 + len items) /\
    len printed = len items /\
    gid = global_truck_id + len items.
Proof.
  induction items as [|[id data] rest IH]; intros wt gt gid; simpl.
  - unfold len; simpl. rewrite Z.add_0_r. unfold range.
    rewrite Z.sub_diag. repeat split. lia.
  - specialize (IH (Float.add wt (total_distance data))
                   (Float.add gt (total_distance data)) (gid + 1)).
    destruct (trucks_loop rest _ _ _) as [[[printed wt'] gt'] gid'].
    destruct IH as (Ids & Len & Gid). simpl.
    assert (L : len ((id, data) :: rest) = 1 + len rest)
      by (unfold len; simpl length; lia).
    assert (H0 : 0 <= len rest) by (unfold len; lia).
    split; [|split].
    + rewrite Ids, L.
      rewrite <- (range_app (gid + 1) (gid + 1 + 1) (gid + 1 + (1 + len rest)))
        by lia.
      replace (gid + 1 + (1 + len rest)) with (gid + 1 + 1 + len rest) by lia.
      unfold range at 2. replace (gid + 1 + 1 - (gid + 1)) with 1 by lia.
      simpl. f_equal. lia.
    + unfold len in *. simpl length. lia.
    + lia.
Qed.

End NumberingFacts.

Section ReportShapeFacts.
Import DictFacts.
Variable self : RouteOptimiser.
Variable warehouse_alias : dict string string.
Variable warehouse_assignments : dict string (list string).
Variable trucks_per_warehouse : dict string Z.

Lemma printed_count (warehouse : string) (postcodes : list string) (n : Z)
    (trucks : dict Z (list string)) (routes : dict Z truck_route) :
  0 < n ->
  divide_postcodes_among_trucks postcodes n = Ok trucks ->
  value (optimise_routes_for_trucks self trucks warehouse) = Ok routes ->
  len (Dict.items routes) = Z.min (len postcodes) n.
Proof.
  intros Hn Div Opt.
  destruct (divide_keys postcodes n Hn) as (trucks' & Div' & Keys & Loaded).
  assert (trucks' = trucks) by congruence. subst trucks'.
  unfold optimise_routes_for_trucks in Opt.
  apply routes_loop_spec in Opt;
    [|eapply divide_keys_NoDup; eauto | intros id _ []].
  destruct Opt as (entries & -> & F2). simpl app.
  rewrite filter_has_stops in F2 by exact Loaded.
  apply Forall2_length in F2. unfold len, Dict.items in *. rewrite <- F2.
  unfold Dict.keys in Keys. rewrite <- (length_map fst), Keys.
  unfold range. rewrite length_map, length_seq.
  assert (0 <= Z.of_nat (length postcodes)) by lia. lia.
Qed.

Lemma warehouses_loop_shape (warehouses : list string) :
  forall grand_total global_truck_id reports grand_total',
    value (warehouses_loop self warehouse_alias warehouse_assignments
             trucks_per_warehouse warehouses grand_total global_truck_id)
    = Ok (reports, grand_total') ->
    map reported_warehouse reports
    = filter (has_postcodes warehouse_assignments) warehouses /\
    Forall (labelled warehouse_alias) reports /\
    Forall (vehicles_counted warehouse_assignments trucks_per_warehouse)
           reports /\
    map actual_truck_id (printed_trucks reports)
    = range (global_truck_id + 1)
            (global_truck_id + 1 + len (printed_trucks reports)).
Proof.
  induction warehouses as [|w ws IH]; intros g gid reports g' Run.
  - injection Run as <- <-. split; [reflexivity|]. do 2 (split; [constructor|]).
    unfold printed_trucks, len, range. simpl. now rewrite Z.add_0_r, Z.sub_diag.
  - rewrite warehouses_loop_cons, value_bind, value_lift in Run.
    unfold Dict.getitem in Run. cbn [filter]. unfold has_postcodes at 1.
    destruct (Dict.get warehouse_assignments w) as [assigned|] eqn:Ga;
      [|discriminate].
    rewrite value_bind, value_lift in Run.
    destruct (Dict.get trucks_per_warehouse w) as [n|] eqn:Gn; [|discriminate].
    destruct assigned as [|pc assigned]; [now apply IH in Run|].
    rewrite value_bind, value_lift in Run.
    destruct (divide_postcodes_among_trucks (pc :: assigned) n)
      as [trucks|e] eqn:Div; [|discriminate].
    rewrite value_bind in Run.
    destruct (value (optimise_routes_for_trucks self trucks w))
      as [routes|e] eqn:Opt; [|discriminate].
    pose proof (trucks_loop_ids (Dict.items routes) Float.zero g gid) as TL.
    destruct (trucks_loop (Dict.items routes) Float.zero g gid)
      as [[[printed wt] gt] gid'].
    destruct TL as (Ids & Len & Gid).
    rewrite value_bind in Run.
    destruct (value (warehouses_loop self warehouse_alias warehouse_assignments
                       trucks_per_warehouse ws gt gid'))
      as [[more g'']|e] eqn:Rest; [|discriminate].
    injection Run as <- <-.
    apply IH in Rest. destruct Rest as (Names & Labels & Counts & Numbers).
    split; [simpl; now rewrite Names|].
    split; [constructor; [reflexivity | exact Labels]|]. split.
    + constructor; [|exact Counts]. unfold vehicles_counted. simpl.
      split; [exact Gn|]. split.
      * intros ->. discriminate.
      * intros Hn. unfold assigned_count, Dict.get_default. rewrite Ga, Len.
        eapply printed_count; eauto.
    + unfold printed_trucks in *. simpl. rewrite map_app, Ids, Numbers.
      assert (L : len (printed ++ concat (map truck_reports more))
                  = len printed + len (concat (map truck_reports more)))
        by (unfold len; rewrite length_app; lia).
      rewrite L, <- Len, Gid, <- Len.
      assert (0 <= len printed) by (unfold len; lia).
      assert (0 <= len (concat (map truck_reports more))) by (unfold len; lia).
      replace (gid + len printed + 1) with (gid + 1 + len printed) by lia.
      replace (gid + 1 + len printed + len (concat (map truck_reports more)))
        with (gid + 1 + (len printed + len (concat (map truck_reports more))))
        by lia.
      apply range_app. lia.
Qed.

End ReportShapeFacts.










(** ** How [main] can fail *)

Section FailureFacts.
Import DictFacts.

Lemma round_nearest_even_nonneg (m : Z) (l : location) :
  0 <= m -> 0 <= round_nearest_even m l.
Proof.
  intros H. destruct l as [|[| |]]; simpl; try lia.
  destruct (Z.even m); lia.
Qed.

Lemma binary_round_aux_not_nan (sx : bool) (mx ex : Z) (lx : location) :
  0 <= mx -> binary_round_aux Float.prec Float.emax sx mx ex lx <> S754_nan.
Proof.
  intros Hm. unfold binary_round_aux.
  destruct (shr_fexp_spec mx ex lx Hm) as (k1 & Hk1 & M1 & _).
  destruct (shr_fexp Float.prec Float.emax mx ex lx) as [mrs1 e1].
  simpl in M1.
  assert (H1 : 0 <= shr_m mrs1) by (rewrite M1; now apply div_pow2_nonneg).
  pose proof (round_nearest_even_nonneg _ (loc_of_shr_record mrs1) H1) as H2.
  destruct (shr_fexp_spec _ e1 loc_Exact H2) as (k2 & Hk2 & M2 & _).
  destruct (shr_fexp Float.prec Float.emax _ e1 loc_Exact) as [mrs2 e2].
  simpl in M2.
  assert (H3 : 0 <= shr_m mrs2) by (rewrite M2; now apply div_pow2_nonneg).
  destruct (shr_m mrs2); [discriminate | | lia].
  destruct (e2 <=? _); discriminate.
Qed.

Lemma int_true_div_outcome (a b : Z) :
  match Float.int_true_div a b with
  | Ok x => is_finite x = true
  | Raise e => (b = 0 /\ e = ZeroDivisionError) \/ (b <> 0 /\ e = OverflowError)
  end.
Proof.
  unfold Float.int_true_div.
  destruct (Z.eqb_spec b 0) as [->|Hb]; [now left|].
  destruct (Z.eqb_spec a 0) as [|Ha]; [reflexivity|].
  pose proof (SFdiv_core_binary_small (Z.abs a) (Z.abs b) _
                ltac:(lia) ltac:(lia) (Z.le_refl _)) as S.
  destruct (SFdiv_core_binary _ _ (Z.abs a) 0 (Z.abs b) 0) as [[q e] l].
  destruct S as (Hq & _).
  pose proof (binary_round_aux_not_nan (xorb (a <? 0) (b <? 0)) q e l Hq) as N.
  destruct (binary_round_aux _ _ _ q e l); try reflexivity; [now right | congruence].
Qed.

Lemma of_int_outcome (z : Z) :
  match Float.of_int z with
  | Ok x => is_finite x = true
  | Raise e => e = OverflowError
  end.
Proof.
  unfold Float.of_int, binary_normalize, binary_round.
  destruct z as [|p|p]; [reflexivity| |];
    destruct (shl_align _ _ _) as [mz ez];
    match goal with
    | |- context [binary_round_aux ?p ?e ?s ?m ?x ?l] =>
        pose proof (binary_round_aux_not_nan s m x l ltac:(lia)) as N;
        destruct (binary_round_aux p e s m x l); try reflexivity; congruence
    end.
Qed.

Lemma mul_not_nan (x y : float) :
  is_finite x = true -> is_finite y = true -> Float.mul x y <> S754_nan.
Proof.
  destruct x as [sx|sx| |sx mx ex]; try discriminate;
    destruct y as [sy|sy| |sy my ey]; try discriminate; intros _ _;
    try discriminate.
  apply binary_round_aux_not_nan. lia.
Qed.

Lemma raw_trucks_raises (assigned total_postcodes total_trucks : Z) (e : exn) :
  raw_trucks assigned total_postcodes total_trucks = Raise e -> arithmetic e.
Proof.
  unfold raw_trucks, Float.mul_int, arithmetic.
  pose proof (int_true_div_outcome assigned total_postcodes) as D.
  destruct (Float.int_true_div assigned total_postcodes) as [x|e1]; simpl.
  - pose proof (of_int_outcome total_trucks) as C.
    destruct (Float.of_int total_trucks) as [y|e2]; simpl.
    + pose proof (mul_not_nan x y D C) as N.
      destruct (Float.mul x y); simpl; try discriminate; [|congruence].
      intros [= <-]. now right.
    + intros [= <-]. now right.
  - intros [= <-]. destruct D as [[_ ->]|[_ ->]]; auto.
Qed.

Lemma divide_loop_raises (indexed : list (Z * string)) (n : Z) :
  forall d e, divide_loop indexed n d = Raise e -> e = ZeroDivisionError.
Proof.
  induction indexed as [|[i pc] rest IH]; intros d e; simpl; [discriminate|].
  unfold py_mod. destruct (n =? 0); simpl; [congruence | apply IH].
Qed.

Variable self : RouteOptimiser.

Lemma routes_loop_raises (warehouse : string) (items : list (Z * list string)) :
  forall truck_routes e,
    value (routes_loop self items warehouse truck_routes) = Raise e ->
    e = OverflowError.
Proof.
  induction items as [|[id stops] rest IH]; intros routes e; [discriminate|].
  destruct stops as [|stop stops]; [apply IH|].
  rewrite routes_loop_cons, value_bind, value_closed_route.
  rewrite value_bind, value_lift, legs_total.
  pose proof (int_true_div_outcome
                (sum_int (map distance (route_legs self warehouse (stop :: stops))))
                1000) as D.
  destruct (Float.int_true_div _ 1000) as [km|e1]; [apply IH|].
  intros [= <-]. destruct D as [[? _]|[_ ->]]; [discriminate | reflexivity].
Qed.

Variable warehouse_alias : dict string string.
Variable warehouse_assignments : dict string (list string).
Variable trucks_per_warehouse : dict string Z.

Lemma warehouses_loop_raises (warehouses : list string) :
  (forall w, In w warehouses -> In w (Dict.keys warehouse_assignments)) ->
  (forall w, In w warehouses -> In w (Dict.keys trucks_per_warehouse)) ->
  forall grand_total global_truck_id e,
    value (warehouses_loop self warehouse_alias warehouse_assignments
             trucks_per_warehouse warehouses grand_total global_truck_id)
    = Raise e ->
    arithmetic e.
Proof.
  induction warehouses as [|w ws IH]; intros Ka Kt g gid e Run; [discriminate|].
  assert (Ka' : forall x, In x ws -> In x (Dict.keys warehouse_assignments))
    by (intros x I; apply Ka; now right).
  assert (Kt' : forall x, In x ws -> In x (Dict.keys trucks_per_warehouse))
    by (intros x I; apply Kt; now right).
  destruct (keys_get_Some _ _ (Ka w (or_introl eq_refl))) as (assigned & Ga).
  destruct (keys_get_Some _ _ (Kt w (or_introl eq_refl))) as (n & Gn).
  rewrite warehouses_loop_cons, value_bind, value_lift in Run.
  unfold Dict.getitem in Run. rewrite Ga in Run.
  rewrite value_bind, value_lift, Gn in Run.
  destruct assigned as [|pc assigned]; [now apply (IH Ka' Kt') in Run|].
  rewrite value_bind, value_lift in Run.
  destruct (divide_postcodes_among_trucks (pc :: assigned) n)
    as [trucks|e1] eqn:Div.
  2:{ injection Run as <-. apply divide_loop_raises in Div. now left. }
  rewrite value_bind in Run.
  destruct (value (optimise_routes_for_trucks self trucks w))
    as [routes|e1] eqn:Opt.
  2:{ injection Run as <-. apply routes_loop_raises in Opt. now right. }
  destruct (trucks_loop (Dict.items routes) Float.zero g gid)
    as [[[printed wt] gt] gid'].
  rewrite value_bind in Run.
  destruct (value (warehouses_loop self warehouse_alias warehouse_assignments
                     trucks_per_warehouse ws gt gid'))
    as [[more g'']|e1] eqn:Rest; [discriminate|].
  injection Run as <-. now apply (IH Ka' Kt') in Rest.
Qed.

Lemma warehouses_loop_zero (warehouses : list string) (w stop : string)
    (stops : list string) :
  In w warehouses ->
  Dict.get warehouse_assignments w = Some (stop :: stops) ->
  Dict.get trucks_per_warehouse w = Some 0 ->
  forall grand_total global_truck_id,
    exists e,
      value (warehouses_loop self warehouse_alias warehouse_assignments
               trucks_per_warehouse warehouses grand_total global_truck_id)
      = Raise e.
Proof.
  intros I Ga Gn.
  induction warehouses as [|w' ws IH]; intros g gid; [destruct I|].
  rewrite warehouses_loop_cons, value_bind, value_lift.
  unfold Dict.getitem.
  destruct (string_dec w' w) as [->|N].
  - rewrite Ga, value_bind, value_lift, Gn.
    rewrite value_bind, value_lift. eexists. reflexivity.
  - destruct I as [E|I]; [contradiction|]. specialize (IH I).
    destruct (Dict.get warehouse_assignments w') as [assigned|]; [|eauto].
    rewrite value_bind, value_lift.
    destruct (Dict.get trucks_per_warehouse w') as [n|]; [|eauto].
    destruct assigned as [|pc assigned]; [apply IH|].
    rewrite value_bind, value_lift.
    destruct (divide_postcodes_among_trucks (pc :: assigned) n)
      as [trucks|e1]; [|eauto].
    rewrite value_bind.
    destruct (value (optimise_routes_for_trucks self trucks w'))
      as [routes|e1]; [|eauto].
    destruct (trucks_loop (Dict.items routes) Float.zero g gid)
      as [[[printed wt] gt] gid'].
    rewrite value_bind. destruct (IH gt gid') as (e & ->). eauto.
Qed.

End FailureFacts.

Section AllocationFailureFacts.
Import DictFacts.
Variable warehouse_assignments : dict string (list string).
Variables total_postcodes total_trucks : Z.

Lemma allocation_loop_outcome (warehouses : list string) :
  (forall w, In w warehouses -> In w (Dict.keys warehouse_assignments)) ->
  forall d,
    match allocation_loop warehouse_assignments total_postcodes total_trucks
            warehouses d with
    | Ok raw => forall w, In w (Dict.keys raw) <-> In w (Dict.keys d) \/ In w warehouses
    | Raise e => arithmetic e
    end.
Proof.
  induction warehouses as [|w ws IH]; intros Ka d; simpl.
  - intros w. tauto.
  - destruct (keys_get_Some _ _ (Ka w (or_introl eq_refl))) as (assigned & Ga).
    unfold Dict.getitem. rewrite Ga. simpl.
    destruct (raw_trucks (len assigned) total_postcodes total_trucks)
      as [n|e] eqn:R; simpl; [|eapply raw_trucks_raises; eauto].
    specialize (IH (fun x I => Ka x (or_intror I)) (Dict.setitem d w n)).
    destruct (allocation_loop _ _ _ ws _) as [raw|e]; [|exact IH].
    intros x. rewrite IH, in_keys_setitem. intuition auto.
Qed.

Lemma adjust_trucks_outcome (warehouses : list string) (raw : dict string Z) :
  warehouses <> [] ->
  (forall w, In w warehouses -> In w (Dict.keys warehouse_assignments)) ->
  (forall w, In w warehouses -> In w (Dict.keys raw)) ->
  exists tpw,
    adjust_trucks warehouse_assignments total_trucks warehouses raw = Ok tpw /\
    forall w, In w (Dict.keys tpw) <-> In w (Dict.keys raw).
Proof.
  intros NE Ka Kr. unfold adjust_trucks.
  destruct (_ =? 0); [exists raw; split; [reflexivity | tauto]|].
  destruct (max_by_spec
              (fun w => assigned <- Dict.getitem warehouse_assignments w ;;
                        ret (len assigned))
              (assigned_count warehouse_assignments) warehouses NE)
    as (larger & l1 & l2 & Max & Split & _).
  { intros w I. destruct (keys_get_Some _ _ (Ka w I)) as (assigned & Ga).
    unfold Dict.getitem, assigned_count, Dict.get_default. now rewrite Ga. }
  unfold larger_warehouse. rewrite Max. simpl.
  assert (I : In larger warehouses)
    by (rewrite Split; apply in_or_app; right; now left).
  destruct (keys_get_Some _ _ (Kr larger I)) as (current & Gc).
  unfold Dict.getitem. rewrite Gc. simpl.
  eexists. split; [reflexivity|].
  intros w. rewrite keys_setitem_present; [tauto|]. now apply Kr.
Qed.

Lemma allocate_trucks_outcome (warehouses : list string) :
  warehouses <> [] ->
  (forall w, In w warehouses -> In w (Dict.keys warehouse_assignments)) ->
  match allocate_trucks warehouse_assignments total_postcodes total_trucks
          warehouses with
  | Ok tpw => forall w, In w warehouses -> In w (Dict.keys tpw)
  | Raise e => arithmetic e
  end.
Proof.
  intros NE Ka. unfold allocate_trucks.
  pose proof (allocation_loop_outcome warehouses Ka Dict.empty) as L.
  destruct (allocation_loop _ _ _ warehouses _) as [raw|e]; [|exact L]. simpl.
  destruct (adjust_trucks_outcome warehouses raw NE Ka) as (tpw & -> & Keys).
  { intros w I. apply L. now right. }
  intros w I. apply Keys, L. now right.
Qed.

End AllocationFailureFacts.

(** ** What is logged *)

Section LogFacts.
Import DictFacts.
Variable P : log_record -> Prop.

Lemma logged_bind_Forall {A B} (m : Py A) (f : A -> Py B) :
  Forall P (logged m) -> (forall a, Forall P (logged (f a))) ->
  Forall P (logged (bind m f)).
Proof.
  intros Hm Hf. rewrite logged_bind. apply Forall_app. split; [exact Hm|].
  destruct (value m); [apply Hf | constructor].
Qed.

Variable self : RouteOptimiser.
Hypothesis distance_log :
  forall origin destination, Forall P (logged (get_distance self origin destination)).
Hypothesis route_log :
  forall waypoints, Forall P (logged (get_optimised_route self waypoints)).

Lemma assignment_log (warehouses postcodes : list string) :
  Forall P (logged (assign_postcodes_to_warehouses self warehouses postcodes)).
Proof.
  unfold assign_postcodes_to_warehouses.
  apply logged_bind_Forall; [|intros wd; constructor].
  unfold calculate_warehouse_distances. rewrite logged_distances_loop
    by (intros w I; now apply in_keys_comprehension).
  apply Forall_flat_map, Forall_forall. intros w _.
  apply Forall_flat_map, Forall_forall. intros p _. apply distance_log.
Qed.

Lemma routes_loop_log (warehouse : string) (items : list (Z * list string)) :
  forall truck_routes,
    Forall P (logged (routes_loop self items warehouse truck_routes)).
Proof.
  induction items as [|[id stops] rest IH]; intros routes; [constructor|].
  destruct stops as [|stop stops]; [apply IH|].
  rewrite routes_loop_cons.
  apply logged_bind_Forall; [apply route_log|]. intros route_info.
  apply logged_bind_Forall; [constructor|]. intros km. apply IH.
Qed.

Lemma warehouses_loop_log (warehouse_alias : dict string string)
    (warehouse_assignments : dict string (list string))
    (trucks_per_warehouse : dict string Z) (warehouses : list string) :
  forall grand_total global_truck_id,
    Forall P (logged (warehouses_loop self warehouse_alias warehouse_assignments
                        trucks_per_warehouse warehouses grand_total
                        global_truck_id)).
Proof.
  induction warehouses as [|w ws IH]; intros g gid; [constructor|].
  rewrite warehouses_loop_cons.
  apply logged_bind_Forall; [constructor|]. intros assigned.
  apply logged_bind_Forall; [constructor|]. intros n.
  destruct assigned as [|pc assigned]; [apply IH|].
  apply logged_bind_Forall; [constructor|]. intros trucks.
  apply logged_bind_Forall; [apply routes_loop_log|]. intros routes.
  destruct (trucks_loop (Dict.items routes) Float.zero g gid)
    as [[[printed wt] gt] gid'].
  apply logged_bind_Forall; [apply IH|]. intros more. constructor.
Qed.

Lemma main_with_log (warehouses : list string)
    (warehouse_alias : dict string string) (postcodes : list string)
    (total_trucks : Z) :
  Forall P (logged (main_with self warehouses warehouse_alias postcodes
                      total_trucks)).
Proof.
  unfold main_with.
  apply logged_bind_Forall; [apply assignment_log|]. intros wa.
  apply logged_bind_Forall; [constructor|]. intros tpw.
  apply logged_bind_Forall; [apply warehouses_loop_log|]. intros done.
  constructor.
Qed.

End LogFacts.








(** ** When [main] returns *)

Section ReturnFacts.
Import DictFacts.
Variable self : RouteOptimiser.
Hypothesis bounded : routes_bounded self.

Lemma route_legs_bounded (warehouse : string) (stops : list string) :
  Z.abs (sum_int (map distance (route_legs self warehouse stops))) < 2 ^ 1000.
Proof.
  unfold route_legs, get_optimised_route. cbn [app].
  destruct (directions_service self _) as [legs| |e] eqn:E; cbn;
    [eapply bounded; eauto | reflexivity | reflexivity].
Qed.

Variable warehouse_alias : dict string string.
Variable warehouse_assignments : dict string (list string).
Variable trucks_per_warehouse : dict string Z.

Lemma warehouses_loop_returns (warehouses : list string) :
  (forall w, In w warehouses -> In w (Dict.keys warehouse_assignments)) ->
  (forall w, In w warehouses -> In w (Dict.keys trucks_per_warehouse)) ->
  (forall w, In w warehouses -> has_postcodes warehouse_assignments w = true ->
     Dict.get trucks_per_warehouse w <> Some 0) ->
  forall grand_total global_truck_id,
    exists done,
      value (warehouses_loop self warehouse_alias warehouse_assignments
               trucks_per_warehouse warehouses grand_total global_truck_id)
      = Ok done.
Proof.
  induction warehouses as [|w ws IH]; intros Ka Kt Nz g gid; [eexists; reflexivity|].
  assert (IH' : forall g' gid', exists done,
             value (warehouses_loop self warehouse_alias warehouse_assignments
                      trucks_per_warehouse ws g' gid') = Ok done).
  { apply IH; intros x I; [apply Ka | apply Kt | apply Nz]; now right. }
  destruct (keys_get_Some _ _ (Ka w (or_introl eq_refl))) as (assigned & Ga).
  destruct (keys_get_Some _ _ (Kt w (or_introl eq_refl))) as (n & Gn).
  rewrite warehouses_loop_cons, value_bind, value_lift.
  unfold Dict.getitem. rewrite Ga, value_bind, value_lift, Gn.
  destruct assigned as [|pc assigned]; [apply IH'|].
  assert (Hn : n <> 0).
  { intros ->. apply (Nz w (or_introl eq_refl)); [|exact Gn].
    unfold has_postcodes. now rewrite Ga. }
  destruct (divide_loop_spec (enumerate (pc :: assigned)) n Hn Dict.empty)
    as (trucks & Div & _).
  rewrite value_bind, value_lift. unfold divide_postcodes_among_trucks.
  rewrite Div, value_bind.
  destruct (routes_loop_total self w (Dict.items trucks)) with
    (truck_routes := @Dict.empty Z truck_route) as (routes & Opt).
  { intros item _ _. apply route_of_total, route_legs_bounded. }
  unfold optimise_routes_for_trucks. rewrite Opt.
  destruct (trucks_loop (Dict.items routes) Float.zero g gid)
    as [[[printed wt] gt] gid'].
  rewrite value_bind. destruct (IH' gt gid') as (more & ->).
  eexists. reflexivity.
Qed.

End ReturnFacts.

Lemma three_routes_bounded : routes_bounded three_routes.
Proof.
  intros url legs. unfold three_routes, example_optimiser.
  cbn [directions_service]. unfold directions_table.
  destruct (find _ _) as [row|] eqn:F; [|discriminate].
  apply find_some in F. destruct F as [I _]. intros [= <-].
  destruct I as [<-|[<-|[<-|[]]]]; vm_compute; reflexivity.
Qed.

Lemma main_with_returns
    (self : RouteOptimiser) (warehouses : list string)
    (warehouse_alias : dict string string) (postcodes : list string)
    (total_trucks : Z) (wa : dict string (list string)) (tpw : dict string Z) :
  value (assign_postcodes_to_warehouses self warehouses postcodes) = Ok wa ->
  allocate_trucks wa (len postcodes) total_trucks warehouses = Ok tpw ->
  (forall w, In w warehouses -> has_postcodes wa w = true ->
     Dict.get tpw w <> Some 0) ->
  routes_bounded self ->
  exists rep,
    value (main_with self warehouses warehouse_alias postcodes total_trucks)
    = Ok rep.
Proof.
  intros Run Alloc Nz Bounded.
  assert (Keys : (forall x, In x warehouses -> In x (Dict.keys wa)) /\
                 (forall x, In x warehouses -> In x (Dict.keys tpw))).
  { destruct warehouses as [|w0 rest] eqn:W; [split; intros x []|].
    destruct (assign_postcodes_to_warehouses_spec self w0 rest postcodes)
      as (wd & wa' & _ & Run' & _ & _ & Keys & _).
    assert (wa' = wa) by congruence. subst wa'.
    assert (Ka : forall x, In x (w0 :: rest) -> In x (Dict.keys wa))
      by (intros x Ix; now apply Keys).
    split; [exact Ka|].
    pose proof (allocate_trucks_outcome wa (len postcodes) total_trucks
                  (w0 :: rest) ltac:(discriminate) Ka) as Kt.
    now rewrite Alloc in Kt. }
  destruct Keys as [Ka Kt].
  destruct (warehouses_loop_returns self Bounded warehouse_alias wa tpw
              warehouses Ka Kt Nz Float.zero 0) as (done & Loop).
  unfold main_with.
  rewrite value_bind, Run, value_bind, value_lift, Alloc, value_bind, Loop.
  eexists. reflexivity.
Qed.



Section MainFacts.
Import DictFacts.

Lemma raw_trucks_of_30 (assigned : Z) :
  0 <= assigned <= 30 -> raw_trucks assigned 30 30 = Ok (Z.max 1 assigned).
Proof.
  intros H.
  assert (E : exists n, (n <= 30)%nat /\ assigned = Z.of_nat n)
    by (exists (Z.to_nat assigned); lia).
  destruct E as (n & Hn & ->). clear H.
  do 31 (destruct n as [|n]; [vm_compute; reflexivity|]). lia.
Qed.

Lemma filter_split_length {A} (f g : A -> bool) (l : list A) :
  (forall x, In x l -> f x = negb (g x)) ->
  len (filter f l) + len (filter g l) = len l.
Proof.
  unfold len. induction l as [|x l IH]; intros H; [reflexivity|].
  assert (IH' : Z.of_nat (length (filter f l)) + Z.of_nat (length (filter g l))
                = Z.of_nat (length l))
    by (apply IH; intros y I; apply H; now right).
  simpl. rewrite (H x (or_introl eq_refl)).
  destruct (g x); simpl length; lia.
Qed.

End MainFacts.


